(** * ad3: flux-limited finite-volume residual for 3D advection-diffusion

    A shallow embedding of [src/c/ch10/ad3.c].  The C type [double] is
    read as the field of real numbers [R] (exact arithmetic: no rounding,
    no overflow, no NaN), [int] and [PetscInt] as [Z], and a
    [double ***] array handed out by [DMDAVecGetArray] as a total
    function of its three indices, written [a k j i] for [a[k][j][i]].
    The limiters are given a second time on binary64 floating-point
    numbers, where their values are computed as the C code computes
    them. *)

From Stdlib Require Import Floats.
From Stdlib Require Import ZArith List Bool Lia.
From Stdlib Require Import Reals Lra Psatz.
Import ListNotations.

Open Scope Z_scope.
Open Scope R_scope.

(** ** Limiters (lines 56-69) *)

Definition centered (theta : R) : R := 0.5.

Definition vanleer (theta : R) : R :=
  let abstheta := Rabs theta in
  0.5 * (theta + abstheta) / (1.0 + abstheta).






Inductive LimiterType : Type := NONE | CENTERED | VANLEER.

(** [limiterptr]: a C function pointer is [Some f], the null pointer is
    [None]. *)
Definition limiterptr (l : LimiterType) : option (R -> R) :=
  match l with
  | NONE => None
  | CENTERED => Some centered
  | VANLEER => Some vanleer
  end.

(** ** The user context (lines 71-77)

    The struct is declared as [AdCtx]; [FormFunctionLocal] and [main]
    name it [Ctx]. *)

Record AdCtx : Type := {
  eps : R;
  w0 : R;
  a_fcn : R -> R -> R -> Z -> R;
  g_fcn : R -> R -> R -> Z -> R;
  b_fcn : R -> R -> R -> Z -> R;
  limiter_fcn : option (R -> R)
}.

Definition Ctx : Type := AdCtx.

(** ** The layer problem (lines 98-119) *)

Definition EE : R := 2.0 * PI.
Definition FF : R := PI / 2.0.

Definition layer_u (x y z eps : R) : R :=
  let C := exp (- 2.0 / eps) in
  ((exp ((x - 1) / eps) - C) / (1.0 - C))
  * sin (EE * (y + 1.0)) * sin (FF * (z + 1.0)).

Definition layer_a (x y z : R) (q : Z) : R :=
  if (q =? 0)%Z then 1.0 else 0.0.

Definition layer_g (x y z eps : R) : R :=
  let lam := eps * (EE * EE + FF * FF) in
  lam * layer_u x y z eps.

Definition layer_b (y z : R) : R :=
  sin (EE * (y + 1.0)) * sin (FF * (z + 1.0)).

(** ** Grid description and arrays

    The fields of PETSc's [DMDALocalInfo] that the code reads: the global
    extents [mx my mz], the first owned index [xs ys zs] and the owned
    extents [xm ym zm]. *)

Record DMDALocalInfo : Type := {
  mx : Z; my : Z; mz : Z;
  xs : Z; ys : Z; zs : Z;
  xm : Z; ym : Z; zm : Z
}.

Definition Array3 : Type := Z -> Z -> Z -> R.

(** [aset a k j i v] is the array after [a[k][j][i] = v]. *)
Definition aset (a : Array3) (k j i : Z) (v : R) : Array3 :=
  fun k' j' i' =>
    if ((k' =? k) && (j' =? j) && (i' =? i))%Z then v else a k' j' i'.

(** Two arrays that hold the same value at cell (i,j,k). *)
Definition same_at (k j i : Z) (a a' : Array3) : Prop := a k j i = a' k j i.

(** An array operation that leaves cell (i,j,k) as it was. *)
Definition keeps (k j i : Z) (f : Array3 -> Array3) : Prop :=
  forall a, f a k j i = a k j i.

(** The owned box lies within the grid in x and y. *)
Definition box_in_grid (info : DMDALocalInfo) : Prop :=
  (0 <= xs info /\ xs info + xm info <= mx info)%Z /\
  (0 <= ys info /\ ys info + ym info <= my info)%Z.

(** The cell is one of those the local process owns. *)
Definition owned (info : DMDALocalInfo) (k j i : Z) : Prop :=
  (zs info <= k < zs info + zm info)%Z /\
  (ys info <= j < ys info + ym info)%Z /\
  (xs info <= i < xs info + xm info)%Z.

(** ** Loops

    [for_loop lo hi body s] runs [for (v = lo; v < hi; v++) body], the
    state being threaded through. *)

Fixpoint for_count {S : Type} (n : nat) (lo : Z) (body : Z -> S -> S) (s : S)
  : S :=
  match n with
  | O => s
  | Datatypes.S n' => for_count n' (lo + 1)%Z body (body lo s)
  end.

Definition for_loop {S : Type} (lo hi : Z) (body : Z -> S -> S) (s : S) : S :=
  for_count (Z.to_nat (hi - lo)) lo body s.

(** Comparisons of doubles, as booleans. *)
Definition Rgeb (x y : R) : bool := if Rge_dec x y then true else false.
Definition Rleb (x y : R) : bool := if Rle_dec x y then true else false.
Definition Rneqb (x y : R) : bool := if Req_dec_T x y then false else true.

(** ** FormLayerUExact (lines 121-142)

    The local [j] is read in the [k] loop before the [j] loop assigns
    it; [j0] stands for the value it holds at entry.  After the [j] loop
    it holds the loop's exit value. *)

Definition FormLayerUExact (info : DMDALocalInfo) (usr : AdCtx) (j0 : Z)
  (auex : Array3) : Array3 :=
  let hx := 2.0 / IZR (mx info - 1) in
  let hz := 2.0 / IZR (my info) in
  let hy := 2.0 / IZR (mz info - 1) in
  fst (for_loop (zs info) (zs info + zm info)
    (fun k (st : Array3 * Z) =>
       let (auex, j) := st in
       let z := -1.0 + IZR j * hz in
       (for_loop (ys info) (ys info + ym info)
          (fun j auex =>
             let y := -1.0 + (IZR j + 0.5) * hy in
             for_loop (xs info) (xs info + xm info)
               (fun i auex =>
                  let x := -1.0 + IZR i * hx in
                  aset auex k j i (layer_u x y z (eps usr)))
               auex)
          auex,
        Z.max (ys info) (ys info + ym info)))
    (auex, j0)).

(** The value the residual routine's coordinate convention (lines
    153-174) gives the exact solution at cell (i,j,k). *)
Definition layer_u_at_cell (info : DMDALocalInfo) (usr : AdCtx) (k j i : Z)
  : R :=
  let hx := 2.0 / IZR (mx info - 1) in
  let hy := 2.0 / IZR (my info - 1) in
  let hz := 2.0 / IZR (mz info) in
  layer_u (-1.0 + IZR i * hx) (-1.0 + IZR j * hy)
          (-1.0 + (IZR k + 0.5) * hz) (eps usr).

(** ** FormFunctionLocal (lines 145-243) *)

Definition PetscErrorCode : Type := Z.

(** What one evaluation of a face flux (lines 201-216) computes: the
    flux, the smoothness ratio when line 213 is executed, and the
    indices of [au] that were read. *)
Record FluxEval : Type := {
  fe_flux : R;
  fe_theta : option R;
  fe_reads : list (Z * Z * Z)
}.

Section Assembler.

(** [a_wind], [b_bdry] and [g_source] are called by the residual
    routine and not defined in the file. *)
Variable a_wind : R -> R -> R -> Z -> Ctx -> R.
Variable b_bdry : R -> R -> Ctx -> R.
Variable g_source : R -> R -> R -> R -> Ctx -> R.

Variable info : DMDALocalInfo.
Variable au : Array3.
Variable usr : Ctx.

Definition grid_hx : R := 2.0 / IZR (mx info - 1).
Definition grid_hy : R := 2.0 / IZR (my info - 1).
Definition grid_hz : R := 2.0 / IZR (mz info).

Definition coord_x (i : Z) : R := -1.0 + IZR i * grid_hx.
Definition coord_y (j : Z) : R := -1.0 + IZR j * grid_hy.
Definition coord_z (k : Z) : R := -1.0 + (IZR k + 0.5) * grid_hz.

(** Lines 163-167: clear F first. *)
Definition clear_F (aF : Array3) : Array3 :=
  for_loop (zs info) (zs info + zm info)
    (fun k aF =>
       for_loop (ys info) (ys info + ym info)
         (fun j aF =>
            for_loop (xs info) (xs info + xm info)
              (fun i aF => aset aF k j i 0.0) aF) aF) aF.

(** Lines 177-194: the non-advective part of the residual. *)
Definition nonadvective (k j i : Z) (aF : Array3) : Array3 :=
  let hx2 := grid_hx * grid_hx in
  let hy2 := grid_hy * grid_hy in
  let hz2 := grid_hz * grid_hz in
  let x := coord_x i in
  let y := coord_y j in
  let z := coord_z k in
  if (k >=? zs info)%Z then
    if (i =? mx info - 1)%Z then
      aset aF k j i (au k j i - b_bdry y z usr)
    else if ((i =? 0) || (j =? 0) || (j =? my info - 1))%Z then
      aset aF k j i (au k j i)
    else
      let uu := au k j i in
      let uE := if (i =? mx info - 2)%Z then b_bdry y z usr
                else au k j (i + 1)%Z in
      let uW := if (i =? 1)%Z then 0.0 else au k j (i - 1)%Z in
      let uN := if (j =? my info - 2)%Z then 0.0 else au k (j + 1)%Z i in
      let uS := if (j =? 1)%Z then 0.0 else au k (j - 1)%Z i in
      let uxx := (uW - 2.0 * uu + uE) / hx2 in
      let uyy := (uS - 2.0 * uu + uN) / hy2 in
      let uzz := (au (k - 1)%Z j i - 2.0 * uu + au (k + 1)%Z j i) / hz2 in
      aset aF k j i
        (aF k j i - (eps usr * (uxx + uyy + uzz) + g_source x y z uu usr))
  else aF.

(** The indices of [au] read by lines 177-194. *)
Definition nonadvective_reads (k j i : Z) : list (Z * Z * Z) :=
  if (k >=? zs info)%Z then
    if (i =? mx info - 1)%Z then [(k, j, i)]
    else if ((i =? 0) || (j =? 0) || (j =? my info - 1))%Z then [(k, j, i)]
    else
      [(k, j, i)]
      ++ (if (i =? mx info - 2)%Z then [] else [(k, j, (i + 1)%Z)])
      ++ (if (i =? 1)%Z then [] else [(k, j, (i - 1)%Z)])
      ++ (if (j =? my info - 2)%Z then [] else [(k, (j + 1)%Z, i)])
      ++ (if (j =? 1)%Z then [] else [(k, (j - 1)%Z, i)])
      ++ [((k - 1)%Z, j, i); ((k + 1)%Z, j, i)]
  else [].

(** Lines 201-204: the direction of face [q] and the wind at its
    midpoint. *)
Definition dir_i (q : Z) : Z := if (q =? 0)%Z then 1%Z else 0%Z.
Definition dir_j (q : Z) : Z := if (q =? 1)%Z then 1%Z else 0%Z.
Definition dir_k (q : Z) : Z := if (q =? 2)%Z then 1%Z else 0%Z.

Definition face_wind (k j i q : Z) : R :=
  let halfx := grid_hx / 2.0 in
  let halfy := grid_hy / 2.0 in
  let halfz := grid_hz / 2.0 in
  a_wind (coord_x i + halfx * IZR (dir_i q))
         (coord_y j + halfy * IZR (dir_j q))
         (coord_z k + halfz * IZR (dir_k q)) q usr.

(** Line 205 and line 209. *)
Definition upwind_value (k j i q : Z) : R :=
  let a := face_wind k j i q in
  if Rgeb a 0.0 then au k j i
  else au (k + dir_k q)%Z (j + dir_j q)%Z (i + dir_i q)%Z.

Definition downwind_value (k j i q : Z) : R :=
  let a := face_wind k j i q in
  if Rgeb a 0.0 then au (k + dir_k q)%Z (j + dir_j q)%Z (i + dir_i q)%Z
  else au k j i.

(** Line 207. *)
Definition deep (j i : Z) : bool :=
  ((1 <? i) && (i <? mx info - 2) && (1 <? j) && (j <? my info - 2))%Z.

(** Lines 201-216. *)
Definition face_flux_eval (k j i q : Z) : FluxEval :=
  let di := dir_i q in
  let dj := dir_j q in
  let dk := dir_k q in
  let a := face_wind k j i q in
  let u_up := upwind_value k j i q in
  let r_up := if Rgeb a 0.0 then (k, j, i)
              else ((k + dk)%Z, (j + dj)%Z, (i + di)%Z) in
  let flux := a * u_up in
  match limiter_fcn usr with
  | Some limiter =>
      if deep j i then
        let u_dn := downwind_value k j i q in
        let r_dn := if Rgeb a 0.0
                    then ((k + dk)%Z, (j + dj)%Z, (i + di)%Z)
                    else (k, j, i) in
        if Rneqb u_dn u_up then
          let u_far := if Rgeb a 0.0
                       then au (k - dk)%Z (j - dj)%Z (i - di)%Z
                       else au (k + 2 * dk)%Z (j + 2 * dj)%Z (i + 2 * di)%Z in
          let r_far := if Rgeb a 0.0
                       then ((k - dk)%Z, (j - dj)%Z, (i - di)%Z)
                       else ((k + 2 * dk)%Z, (j + 2 * dj)%Z,
                             (i + 2 * di)%Z) in
          let theta := (u_up - u_far) / (u_dn - u_up) in
          {| fe_flux := flux + a * limiter theta * (u_dn - u_up);
             fe_theta := Some theta;
             fe_reads := [r_up; r_dn; r_far] |}
        else
          {| fe_flux := flux; fe_theta := None; fe_reads := [r_up; r_dn] |}
      else {| fe_flux := flux; fe_theta := None; fe_reads := [r_up] |}
  | None => {| fe_flux := flux; fe_theta := None; fe_reads := [r_up] |}
  end.

Definition face_flux (k j i q : Z) : R := fe_flux (face_flux_eval k j i q).

(** Lines 218-237: the switch that adds the flux to the residuals on
    both sides of the face.  Its labels are 0, 1 and 3. *)
Definition accumulate (k j i q : Z) (flux : R) (aF : Array3) : Array3 :=
  match q with
  | 0%Z =>
      let aF1 := if (i >? 0)%Z
                 then aset aF k j i (aF k j i + flux / grid_hx) else aF in
      if ((i <? mx info - 1) && (i + 1 <? xs info + xm info))%Z
      then aset aF1 k j (i + 1)%Z (aF1 k j (i + 1)%Z - flux / grid_hx)
      else aF1
  | 1%Z =>
      let aF1 := if (j >? 0)%Z
                 then aset aF k j i (aF k j i + flux / grid_hy) else aF in
      if ((j <? my info - 1) && (j + 1 <? ys info + ym info))%Z
      then aset aF1 k (j + 1)%Z i (aF1 k (j + 1)%Z i - flux / grid_hy)
      else aF1
  | 3%Z =>
      let aF1 := if (k >=? zs info)%Z
                 then aset aF k j i (aF k j i + flux / grid_hz) else aF in
      if (k + 1 <? zs info + zm info)%Z
      then aset aF1 (k + 1)%Z j i (aF1 (k + 1)%Z j i - flux / grid_hz)
      else aF1
  | _ => aF
  end.

(** Lines 199-238: one pass of the loop over the faces E, N, T. *)
Definition face_step (k j i q : Z) (aF : Array3) : Array3 :=
  if ((q <? 2) && (k <? zs info))%Z then aF
  else accumulate k j i q (face_flux k j i q) aF.

(** Lines 174-238: the body of the innermost cell loop. *)
Definition cell_step (k j i : Z) (aF : Array3) : Array3 :=
  let aF := nonadvective k j i aF in
  if ((i =? mx info - 1) || (j =? my info - 1))%Z then aF
  else for_loop 0 3 (face_step k j i) aF.

(** The indices of [au] read by one pass of the cell loop. *)
Definition cell_reads (k j i : Z) : list (Z * Z * Z) :=
  nonadvective_reads k j i
  ++ (if ((i =? mx info - 1) || (j =? my info - 1))%Z then []
      else flat_map
             (fun q => if ((q <? 2) && (k <? zs info))%Z then []
                       else fe_reads (face_flux_eval k j i q))
             [0%Z; 1%Z; 2%Z]).

(** Lines 173-239: the loop over the cells of a row. *)
Definition row_pass (k j : Z) (aF : Array3) : Array3 :=
  for_loop (xs info) (xs info + xm info) (fun i aF => cell_step k j i aF) aF.

(** Lines 171-240: the loop over the rows of a plane. *)
Definition plane_pass (k : Z) (aF : Array3) : Array3 :=
  for_loop (ys info) (ys info + ym info) (fun j aF => row_pass k j aF) aF.

(** Lines 169-241: the loop over the planes, from the one below the
    owned box. *)
Definition assemble (aF : Array3) : Array3 :=
  for_loop (zs info - 1) (zs info + zm info)
    (fun k aF => plane_pass k aF) aF.

Definition FormFunctionLocal (aF : Array3) : PetscErrorCode * Array3 :=
  (0%Z, assemble (clear_F aF)).

(** The diffusion and source term of lines 183-192 at an interior
    cell. *)
Definition diffusion_source (k j i : Z) : R :=
  let hx2 := grid_hx * grid_hx in
  let hy2 := grid_hy * grid_hy in
  let hz2 := grid_hz * grid_hz in
  let x := coord_x i in
  let y := coord_y j in
  let z := coord_z k in
  let uu := au k j i in
  let uE := if (i =? mx info - 2)%Z then b_bdry y z usr
            else au k j (i + 1)%Z in
  let uW := if (i =? 1)%Z then 0.0 else au k j (i - 1)%Z in
  let uN := if (j =? my info - 2)%Z then 0.0 else au k (j + 1)%Z i in
  let uS := if (j =? 1)%Z then 0.0 else au k (j - 1)%Z i in
  let uxx := (uW - 2.0 * uu + uE) / hx2 in
  let uyy := (uS - 2.0 * uu + uN) / hy2 in
  let uzz := (au (k - 1)%Z j i - 2.0 * uu + au (k + 1)%Z j i) / hz2 in
  eps usr * (uxx + uyy + uzz) + g_source x y z uu usr.

(** The value the routine leaves at an owned cell, in closed form
    ([residual_at_owned_cell] below): the boundary value on the faces
    i = mx-1 and j = my-1; on the faces i = 0 and j = 0 the boundary
    value and the cell's own east or north flux; inside, the diffusion
    and source term, the cell's own east and north fluxes, and the
    fluxes of its west and south neighbours when the loops visit them.
    No flux through a top or bottom face appears. *)
Definition residual_value (k j i : Z) : R :=
  if (i =? mx info - 1)%Z then au k j i - b_bdry (coord_y j) (coord_z k) usr
  else if (j =? my info - 1)%Z then au k j i
  else if (i =? 0)%Z then
    if (j =? 0)%Z then au k j i
    else au k j i + face_flux k j i 1 / grid_hy
  else if (j =? 0)%Z then au k j i + face_flux k j i 0 / grid_hx
  else
    let south := if (ys info <? j)%Z
                 then 0.0 - face_flux k (j - 1)%Z i 1 / grid_hy else 0.0 in
    let west := if (xs info <? i)%Z
                then south - face_flux k j (i - 1)%Z 0 / grid_hx else south in
    west - diffusion_source k j i
    + face_flux k j i 0 / grid_hx + face_flux k j i 1 / grid_hy.

End Assembler.

(** ** main (lines 245-325)

    The calls into PETSc are events of a trace.  A checked call
    ([ierr = f(...); CHKERRQ(ierr)]) returns from [main] with the code
    the library gave when that code is not 0; [ext] gives the codes.
    A function called at two lines carries the object it is called
    on, so that each call of [main] is an event of its own. *)

Inductive DMName : Type := da | da_after.

Inductive VecName : Type := u_initial | u_exact.

Inductive Event : Type :=
| PetscInitialize
| PetscOptionsBegin
| PetscOptionsReal
| PetscOptionsEnum
| PetscOptionsEnd
| DMDACreate3d (M N P dof s : Z)
| DMSetFromOptions
| DMSetUp
| DMSetApplicationContext
| DMDAGetLocalInfo (dm : DMName)
| DMDASetUniformCoordinates
| SNESCreate
| SNESSetDM
| DMDASNESSetFunctionLocal
| SNESSetFromOptions
| DMCreateGlobalVector
| VecSet
| SNESSolve
| VecDestroy (v : VecName)
| DMDestroy
| SNESGetSolution
| VecDuplicate
| SNESGetDM
| formUex
| VecAXPY
| VecNorm
| PetscPrintf
| SNESDestroy
| PetscFinalize.

(** The options database: what [-ad3_eps] and [-ad3_limiter] were given
    on the command line, if they were. *)
Record Options : Type := {
  opt_eps : option R;
  opt_limiter : option LimiterType
}.

Definition Run (A : Type) : Type := list Event * (PetscErrorCode + A).

Definition ret {A : Type} (a : A) : Run A := ([], inr a).

Definition bind {A B : Type} (m : Run A) (f : A -> Run B) : Run B :=
  match m with
  | (t, inl e) => (t, inl e)
  | (t, inr a) => let (t', r) := f a in (t ++ t', r)
  end.

Notation "x <- m ;; f" := (bind m (fun x => f))
  (at level 61, m at next level, right associativity).
Notation "m ;;; f" := (bind m (fun _ => f))
  (at level 61, right associativity).

Definition SETERRQ {A : Type} (code : PetscErrorCode) : Run A :=
  ([], inl code).

(** Line 281: the stencil width handed to [DMDACreate3d]. *)
Definition stencil_width (limiter_fcn : option (R -> R)) : Z :=
  match limiter_fcn with None => 1%Z | Some _ => 2%Z end.

(** The cells a process holds a value for when the halo is [w] wide:
    its owned box, widened by [w] on each side. *)
Definition in_halo (info : DMDALocalInfo) (w : Z) (c : Z * Z * Z) : Prop :=
  match c with
  | (k, j, i) =>
      (zs info - w <= k < zs info + zm info + w)%Z /\
      (ys info - w <= j < ys info + ym info + w)%Z /\
      (xs info - w <= i < xs info + xm info + w)%Z
  end.

Section Main.

Variable ext : Event -> PetscErrorCode.

(** [ierr = f(...); CHKERRQ(ierr);] *)
Definition call (ev : Event) : Run unit :=
  ([ev], if (ext ev =? 0)%Z then inr tt else inl (ext ev)).

(** [f(...);] with the code dropped. *)
Definition call_unchecked (ev : Event) : Run unit := ([ev], inr tt).

(** [user0] is the context as declared, before any field is set. *)
Definition main (opts : Options) (user0 : Ctx) : Run unit :=
  call_unchecked PetscInitialize ;;;
  let user_eps := 1.0 in
  let limiter := CENTERED in
  call PetscOptionsBegin ;;;
  call PetscOptionsReal ;;;
  let user_eps := match opt_eps opts with Some e => e | None => user_eps end in
  (if Rleb user_eps 0.0 then SETERRQ 1%Z else ret tt) ;;;
  call PetscOptionsEnum ;;;
  let limiter :=
    match opt_limiter opts with Some l => l | None => limiter end in
  let user := {| eps := user_eps; w0 := w0 user0;
                 a_fcn := a_fcn user0; g_fcn := g_fcn user0;
                 b_fcn := b_fcn user0;
                 limiter_fcn := limiterptr limiter |} in
  call PetscOptionsEnd ;;;
  let mz := match limiter_fcn user with None => 6%Z | Some _ => 5%Z end in
  call (DMDACreate3d 6 6 mz 1 (stencil_width (limiter_fcn user))) ;;;
  call DMSetFromOptions ;;;
  call DMSetUp ;;;
  call DMSetApplicationContext ;;;
  call (DMDAGetLocalInfo da) ;;;
  call DMDASetUniformCoordinates ;;;
  call SNESCreate ;;;
  call SNESSetDM ;;;
  call DMDASNESSetFunctionLocal ;;;
  call SNESSetFromOptions ;;;
  call DMCreateGlobalVector ;;;
  call VecSet ;;;
  call SNESSolve ;;;
  call (VecDestroy u_initial) ;;;
  call DMDestroy ;;;
  call SNESGetSolution ;;;
  call VecDuplicate ;;;
  call SNESGetDM ;;;
  call (DMDAGetLocalInfo da_after) ;;;
  call formUex ;;;
  call VecAXPY ;;;
  call VecNorm ;;;
  call PetscPrintf ;;;
  call_unchecked (VecDestroy u_exact) ;;;
  call_unchecked SNESDestroy ;;;
  call PetscFinalize.

End Main.

(** The diffusivity a run is configured with: the value of [-ad3_eps]
    when given, the default of line 258 otherwise. *)
Definition configured_eps (opts : Options) : R :=
  match opt_eps opts with Some e => e | None => 1.0 end.

(** ** Sample inputs *)

(** The grid [main] creates on one process when a limiter is set, and
    smaller ones. *)
Definition grid_6x6x5 : DMDALocalInfo :=
  {| mx := 6; my := 6; mz := 5; xs := 0; ys := 0; zs := 0;
     xm := 6; ym := 6; zm := 5 |}.

Definition grid_3x3x2 : DMDALocalInfo :=
  {| mx := 3; my := 3; mz := 2; xs := 0; ys := 0; zs := 0;
     xm := 3; ym := 3; zm := 2 |}.

(** A grid of 4 x 3 x 2 cells held by one process, and the same grid
    where the process owns only the east half, [i = 2, 3]. *)
Definition grid_4x3x2 : DMDALocalInfo :=
  {| mx := 4; my := 3; mz := 2; xs := 0; ys := 0; zs := 0;
     xm := 4; ym := 3; zm := 2 |}.

Definition grid_4x3x2_east : DMDALocalInfo :=
  {| mx := 4; my := 3; mz := 2; xs := 2; ys := 0; zs := 0;
     xm := 2; ym := 3; zm := 2 |}.

(** A grid of 3 x 4 x 2 cells, and its north half, [j = 2, 3]. *)
Definition grid_3x4x2 : DMDALocalInfo :=
  {| mx := 3; my := 4; mz := 2; xs := 0; ys := 0; zs := 0;
     xm := 3; ym := 4; zm := 2 |}.

Definition grid_3x4x2_north : DMDALocalInfo :=
  {| mx := 3; my := 4; mz := 2; xs := 0; ys := 2; zs := 0;
     xm := 3; ym := 2; zm := 2 |}.

Definition sample_user (l : LimiterType) : Ctx :=
  {| eps := 1; w0 := 1;
     a_fcn := layer_a;
     g_fcn := fun _ _ _ _ => 0;
     b_fcn := fun _ _ _ _ => 0;
     limiter_fcn := limiterptr l |}.

(** Winds: the layer problem's (1,0,0), its opposite, (0,0,1) and
    (0,1,0). *)
Definition wind_east (x y z : R) (q : Z) (usr : Ctx) : R := layer_a x y z q.
Definition wind_west (x y z : R) (q : Z) (usr : Ctx) : R :=
  if (q =? 0)%Z then -1 else 0.
Definition wind_up (x y z : R) (q : Z) (usr : Ctx) : R :=
  if (q =? 2)%Z then 1 else 0.
Definition wind_north (x y z : R) (q : Z) (usr : Ctx) : R :=
  if (q =? 1)%Z then 1 else 0.
Definition wind_none (x y z : R) (q : Z) (usr : Ctx) : R := 0.

Definition no_bdry (y z : R) (usr : Ctx) : R := 0.
Definition no_source (x y z u : R) (usr : Ctx) : R := 0.

Definition field_ones : Array3 := fun _ _ _ => 1.
Definition field_ramp_x : Array3 := fun _ _ i => IZR i.
Definition field_zeros : Array3 := fun _ _ _ => 0.

(** A field that is 1 on the even planes in z and 0 on the odd ones; it
    is periodic on a grid with [mz = 2]. *)
Definition field_even_planes : Array3 :=
  fun k _ _ => if (k mod 2 =? 0)%Z then 1 else 0.

Definition all_succeed (ev : Event) : PetscErrorCode := 0%Z.

(** ** Further notions used below *)

(** The index lies within the grid in x and y, the directions that are
    not periodic. *)
Definition in_grid_xy (info : DMDALocalInfo) (c : Z * Z * Z) : Prop :=
  match c with
  | (_, j, i) => (0 <= i < mx info)%Z /\ (0 <= j < my info)%Z
  end.

(** Lines 211-212: the far-upwind value. *)
Definition far_upwind_value (a_wind : R -> R -> R -> Z -> Ctx -> R)
  (info : DMDALocalInfo) (au : Array3) (usr : Ctx) (k j i q : Z) : R :=
  let a := face_wind a_wind info usr k j i q in
  if Rgeb a 0.0
  then au (k - dir_k q)%Z (j - dir_j q)%Z (i - dir_i q)%Z
  else au (k + 2 * dir_k q)%Z (j + 2 * dir_j q)%Z (i + 2 * dir_i q)%Z.

(** [f] has first derivative [d1] and second derivative [d2] at [x]. *)
Definition has_derivatives (f : R -> R) (x d1 d2 : R) : Prop :=
  exists f' : R -> R,
    (forall t, derivable_pt_lim f t (f' t))
    /\ f' x = d1
    /\ derivable_pt_lim f' x d2.

(** Lines 132-138 of [FormLayerUExact]: the two inner loops, for plane
    [k] and the z coordinate [z]. *)
Definition fill_layer_plane (info : DMDALocalInfo) (usr : AdCtx)
  (hx hy z : R) (k : Z) (auex : Array3) : Array3 :=
  for_loop (ys info) (ys info + ym info)
    (fun j auex =>
       let y := -1.0 + (IZR j + 0.5) * hy in
       for_loop (xs info) (xs info + xm info)
         (fun i auex =>
            let x := -1.0 + IZR i * hx in
            aset auex k j i (layer_u x y z (eps usr)))
         auex)
    auex.

(** Lines 130-139 of [FormLayerUExact]: the body of the loop over the
    planes, on the pair of the array and the local [j]. *)
Definition layer_plane_body (info : DMDALocalInfo) (usr : AdCtx)
  (hx hy hz : R) (k : Z) (st : Array3 * Z) : Array3 * Z :=
  let (auex, j) := st in
  (fill_layer_plane info usr hx hy (-1.0 + IZR j * hz) k auex,
   Z.max (ys info) (ys info + ym info)).

(** The value [FormLayerUExact] stores at cell (i,j,k), in closed form:
    the exact solution at x = -1 + i hx, at y = -1 + (j + 0.5) hy with
    hy = 2/(mz-1), and at z = -1 + J hz with hz = 2/my, where J is what
    the local [j] holds when plane k is begun: its value at entry on the
    first owned plane, [ys + ym] on the others. *)
Definition exact_value_stored (info : DMDALocalInfo) (usr : AdCtx) (j0 : Z)
  (k j i : Z) : R :=
  let hx := 2.0 / IZR (mx info - 1) in
  let hz := 2.0 / IZR (my info) in
  let hy := 2.0 / IZR (mz info - 1) in
  let J := if (k =? zs info)%Z then j0 else (ys info + ym info)%Z in
  layer_u (-1.0 + IZR i * hx) (-1.0 + (IZR j + 0.5) * hy)
          (-1.0 + IZR J * hz) (eps usr).

(** A run that returns an error code returns a non-zero one: the code
    1 of the check on eps, with [bad_eps], or the code of the last call
    it made. *)
Definition stops_at_failure {A : Type} (ext : Event -> PetscErrorCode)
  (bad_eps : Prop) (m : Run A) : Prop :=
  forall code,
    snd m = inl code ->
    code <> 0%Z
    /\ ((code = 1%Z /\ bad_eps)
        \/ exists t ev, fst m = t ++ [ev] /\ ext ev = code).

(** A library whose solve fails with code 77. *)
Definition fail_at_solve (ev : Event) : PetscErrorCode :=
  match ev with SNESSolve => 77%Z | _ => 0%Z end.

(** The 4 x 3 x 2 grid where the process owns only the upper plane,
    [k = 1]. *)
Definition grid_4x3x2_upper : DMDALocalInfo :=
  {| mx := 4; my := 3; mz := 2; xs := 0; ys := 0; zs := 1;
     xm := 4; ym := 3; zm := 1 |}.

(** ** Limiter bounds *)


Lemma lit_one : 1.0 = 1.
Proof. lra. Qed.






(** ** Reasoning about loops *)

Section Loops.

Context {S : Type}.

Lemma for_count_inv (P : S -> Prop) (body : Z -> S -> S) :
  forall (n : nat) (lo : Z) (s : S),
    P s ->
    (forall v s, (lo <= v < lo + Z.of_nat n)%Z -> P s -> P (body v s)) ->
    P (for_count n lo body s).
Proof.
  induction n as [| n IH]; intros lo s Hs Hstep; simpl.
  - exact Hs.
  - apply IH.
    + apply Hstep; [lia | exact Hs].
    + intros v s' Hv. apply Hstep. lia.
Qed.

Lemma for_loop_inv (P : S -> Prop) (lo hi : Z) (body : Z -> S -> S) (s : S) :
  P s ->
  (forall v s, (lo <= v < hi)%Z -> P s -> P (body v s)) ->
  P (for_loop lo hi body s).
Proof.
  intros Hs Hstep. unfold for_loop.
  apply for_count_inv; [exact Hs |].
  intros v s' Hv. apply Hstep. lia.
Qed.

(** One pass establishes [P], and every pass keeps it. *)
Lemma for_count_establish (P : S -> Prop) (body : Z -> S -> S) (v0 : Z) :
  (forall s, P (body v0 s)) ->
  forall (n : nat) (lo : Z) (s : S),
    (lo <= v0 < lo + Z.of_nat n)%Z ->
    (forall v s, (lo <= v < lo + Z.of_nat n)%Z -> P s -> P (body v s)) ->
    P (for_count n lo body s).
Proof.
  intros Hv0. induction n as [| n IH]; intros lo s Hin Hkeep; simpl.
  - lia.
  - destruct (Z.eq_dec v0 lo) as [-> | Hne].
    + apply for_count_inv; [apply Hv0 |].
      intros v s' Hv. apply Hkeep. lia.
    + apply IH; [lia |].
      intros v s' Hv. apply Hkeep. lia.
Qed.

Lemma for_loop_establish (P : S -> Prop) (lo hi : Z) (body : Z -> S -> S)
  (v0 : Z) (s : S) :
  (lo <= v0 < hi)%Z ->
  (forall s, P (body v0 s)) ->
  (forall v s, (lo <= v < hi)%Z -> P s -> P (body v s)) ->
  P (for_loop lo hi body s).
Proof.
  intros Hin Hv0 Hkeep. unfold for_loop.
  apply (for_count_establish P body v0 Hv0); [lia |].
  intros v s' Hv. apply Hkeep. lia.
Qed.

(** Two runs of a loop, pass by pass. *)
Lemma for_count_rel (Q : S -> S -> Prop) (body body' : Z -> S -> S) :
  forall (n : nat) (lo : Z) (s s' : S),
    Q s s' ->
    (forall v s s', (lo <= v < lo + Z.of_nat n)%Z ->
                    Q s s' -> Q (body v s) (body' v s')) ->
    Q (for_count n lo body s) (for_count n lo body' s').
Proof.
  induction n as [| n IH]; intros lo s s' Hs Hstep; simpl.
  - exact Hs.
  - apply IH.
    + apply Hstep; [lia | exact Hs].
    + intros v t t' Hv. apply Hstep. lia.
Qed.

Lemma for_loop_rel (Q : S -> S -> Prop) (lo hi : Z)
  (body body' : Z -> S -> S) (s s' : S) :
  Q s s' ->
  (forall v s s', (lo <= v < hi)%Z -> Q s s' -> Q (body v s) (body' v s')) ->
  Q (for_loop lo hi body s) (for_loop lo hi body' s').
Proof.
  intros Hs Hstep. unfold for_loop.
  apply for_count_rel; [exact Hs |].
  intros v t t' Hv. apply Hstep. lia.
Qed.

Lemma for_count_app (body : Z -> S -> S) :
  forall (n m : nat) (lo : Z) (s : S),
    for_count (n + m) lo body s
    = for_count m (lo + Z.of_nat n)%Z body (for_count n lo body s).
Proof.
  induction n as [| n IH]; intros m lo s.
  - simpl. rewrite Z.add_0_r. reflexivity.
  - cbn [Nat.add for_count]. rewrite IH.
    replace (lo + 1 + Z.of_nat n)%Z with (lo + Z.of_nat (Datatypes.S n))%Z
      by lia.
    reflexivity.
Qed.

Lemma for_loop_split (lo m hi : Z) (body : Z -> S -> S) (s : S) :
  (lo <= m <= hi)%Z ->
  for_loop lo hi body s = for_loop m hi body (for_loop lo m body s).
Proof.
  intros H. unfold for_loop.
  replace (Z.to_nat (hi - lo)) with (Z.to_nat (m - lo) + Z.to_nat (hi - m))%nat
    by lia.
  rewrite for_count_app.
  replace (lo + Z.of_nat (Z.to_nat (m - lo)))%Z with m by lia.
  reflexivity.
Qed.

Lemma for_loop_one (v : Z) (body : Z -> S -> S) (s : S) :
  for_loop v (v + 1) body s = body v s.
Proof.
  unfold for_loop. replace (v + 1 - v)%Z with 1%Z by lia. reflexivity.
Qed.

(** The loop as the passes before [v], pass [v], and the passes after. *)
Lemma for_loop_around (lo hi v : Z) (body : Z -> S -> S) (s : S) :
  (lo <= v < hi)%Z ->
  for_loop lo hi body s
  = for_loop (v + 1) hi body (body v (for_loop lo v body s)).
Proof.
  intros H.
  rewrite (for_loop_split lo v hi) by lia.
  rewrite (for_loop_split v (v + 1) hi) by lia.
  rewrite for_loop_one. reflexivity.
Qed.

(** The loop as its last pass after the others. *)
Lemma for_loop_last (lo hi : Z) (body : Z -> S -> S) (s : S) :
  (lo < hi)%Z ->
  for_loop lo hi body s = body (hi - 1)%Z (for_loop lo (hi - 1) body s).
Proof.
  intros H. rewrite (for_loop_around lo hi (hi - 1)) by lia.
  replace (hi - 1 + 1)%Z with hi by lia.
  unfold for_loop at 1. replace (Z.to_nat (hi - hi)) with 0%nat by lia.
  reflexivity.
Qed.

Lemma for_loop_none (lo hi : Z) (body : Z -> S -> S) (s : S) :
  (hi <= lo)%Z -> for_loop lo hi body s = s.
Proof.
  intros H. unfold for_loop. replace (Z.to_nat (hi - lo)) with 0%nat by lia.
  reflexivity.
Qed.

(** Loops whose bodies agree pass by pass agree. *)
Lemma for_loop_ext (lo hi : Z) (body body' : Z -> S -> S) (s : S) :
  (forall v s, (lo <= v < hi)%Z -> body v s = body' v s) ->
  for_loop lo hi body s = for_loop lo hi body' s.
Proof.
  intros H. apply (for_loop_rel eq); [reflexivity |].
  intros v t t' Hv <-. apply H, Hv.
Qed.

End Loops.

(** ** Arrays *)

Lemma aset_same (a : Array3) (k j i : Z) (v : R) : aset a k j i v k j i = v.
Proof. unfold aset. rewrite !Z.eqb_refl. reflexivity. Qed.

Lemma aset_other (a : Array3) (k j i : Z) (v : R) (k' j' i' : Z) :
  (k', j', i') <> (k, j, i) -> aset a k j i v k' j' i' = a k' j' i'.
Proof.
  intros Hne. unfold aset.
  destruct (Z.eqb_spec k' k) as [-> |]; [| reflexivity].
  destruct (Z.eqb_spec j' j) as [-> |]; [| reflexivity].
  destruct (Z.eqb_spec i' i) as [-> |]; [| reflexivity].
  congruence.
Qed.

Lemma aset_cases (a : Array3) (k j i : Z) (v : R) (k' j' i' : Z) :
  ((k', j', i') = (k, j, i) /\ aset a k j i v k' j' i' = v)
  \/ ((k', j', i') <> (k, j, i) /\ aset a k j i v k' j' i' = a k' j' i').
Proof.
  unfold aset.
  destruct (Z.eqb_spec k' k) as [-> |]; [| right; split; [congruence | easy]].
  destruct (Z.eqb_spec j' j) as [-> |]; [| right; split; [congruence | easy]].
  destruct (Z.eqb_spec i' i) as [-> |]; [| right; split; [congruence | easy]].
  left. split; reflexivity.
Qed.

(** A store whose new value depends on the array only through the old
    value at the cell stored to keeps [same_at]. *)
Lemma same_at_update (k j i : Z) (a a' : Array3) (k0 j0 i0 : Z) (f : R -> R) :
  same_at k j i a a' ->
  same_at k j i (aset a k0 j0 i0 (f (a k0 j0 i0)))
                (aset a' k0 j0 i0 (f (a' k0 j0 i0))).
Proof.
  intros H. unfold same_at in *.
  destruct (aset_cases a k0 j0 i0 (f (a k0 j0 i0)) k j i) as [[E ->] | [E ->]];
  destruct (aset_cases a' k0 j0 i0 (f (a' k0 j0 i0)) k j i) as [[E' ->] | [E' ->]];
    congruence.
Qed.

Lemma same_at_const (k j i : Z) (a a' : Array3) (k0 j0 i0 : Z) (v : R) :
  same_at k j i a a' ->
  same_at k j i (aset a k0 j0 i0 v) (aset a' k0 j0 i0 v).
Proof. intros H. exact (same_at_update k j i a a' k0 j0 i0 (fun _ => v) H). Qed.

Create HintDb same_at.

#[local] Hint Resolve same_at_update same_at_const : same_at.

(** ** The residual does not depend on what the output array held *)

Section Independence.

Variable a_wind : R -> R -> R -> Z -> Ctx -> R.
Variable b_bdry : R -> R -> Ctx -> R.
Variable g_source : R -> R -> R -> R -> Ctx -> R.
Variable info : DMDALocalInfo.
Variable au : Array3.
Variable usr : Ctx.

Lemma clear_F_owned (aF : Array3) (k j i : Z) :
  owned info k j i -> clear_F info aF k j i = 0.0.
Proof.
  intros (Hk & Hj & Hi). unfold clear_F.
  set (P := fun s : Array3 => s k j i = 0.0).
  assert (Hcell : forall k' j' i' s, P s -> P (aset s k' j' i' 0.0)).
  { intros k' j' i' s Hs. unfold P in *.
    destruct (aset_cases s k' j' i' 0.0 k j i) as [[_ ->] | [_ ->]];
      [reflexivity | exact Hs]. }
  assert (Hrow : forall k' j' s, P s ->
            P (for_loop (xs info) (xs info + xm info)
                 (fun i aF => aset aF k' j' i 0.0) s)).
  { intros k' j' s Hs. apply for_loop_inv; [exact Hs |].
    intros v t _. apply Hcell. }
  assert (Hplane : forall k' s, P s ->
            P (for_loop (ys info) (ys info + ym info)
                 (fun j aF => for_loop (xs info) (xs info + xm info)
                                (fun i aF => aset aF k' j i 0.0) aF) s)).
  { intros k' s Hs. apply for_loop_inv; [exact Hs |].
    intros v t _. apply Hrow. }
  apply (for_loop_establish P _ _ _ k); [exact Hk | | ].
  - intros s. apply (for_loop_establish P _ _ _ j); [exact Hj | | ].
    + intros s'. apply (for_loop_establish P _ _ _ i); [exact Hi | | ].
      * intros t. unfold P. apply aset_same.
      * intros v t _. apply Hcell.
    + intros v t _. apply Hrow.
  - intros v t _. apply Hplane.
Qed.

Lemma nonadvective_same_at (k j i k0 j0 i0 : Z) (aF aF' : Array3) :
  same_at k j i aF aF' ->
  same_at k j i (nonadvective b_bdry g_source info au usr k0 j0 i0 aF)
                (nonadvective b_bdry g_source info au usr k0 j0 i0 aF').
Proof.
  intros H. unfold nonadvective. cbv zeta.
  destruct (k0 >=? zs info)%Z; [| exact H].
  destruct (i0 =? mx info - 1)%Z; [auto with same_at |].
  destruct ((i0 =? 0) || (j0 =? 0) || (j0 =? my info - 1))%Z;
    [auto with same_at |].
  match goal with
  | |- same_at _ _ _ (aset _ _ _ _ (_ - ?c)) _ =>
      exact (same_at_update k j i aF aF' k0 j0 i0 (fun v => v - c) H)
  end.
Qed.

Lemma accumulate_same_at (k j i k0 j0 i0 q : Z) (flux : R) (aF aF' : Array3) :
  same_at k j i aF aF' ->
  same_at k j i (accumulate info k0 j0 i0 q flux aF)
                (accumulate info k0 j0 i0 q flux aF').
Proof.
  intros H. unfold accumulate.
  assert (Hadd : forall c k1 j1 i1 (b : bool) (s s' : Array3),
             same_at k j i s s' ->
             same_at k j i
               (if b then aset s k1 j1 i1 (s k1 j1 i1 + c) else s)
               (if b then aset s' k1 j1 i1 (s' k1 j1 i1 + c) else s')).
  { intros c k1 j1 i1 [] s s' Hs; [| exact Hs].
    exact (same_at_update k j i s s' k1 j1 i1 (fun v => v + c) Hs). }
  assert (Hsub : forall c k1 j1 i1 (b : bool) (s s' : Array3),
             same_at k j i s s' ->
             same_at k j i
               (if b then aset s k1 j1 i1 (s k1 j1 i1 - c) else s)
               (if b then aset s' k1 j1 i1 (s' k1 j1 i1 - c) else s')).
  { intros c k1 j1 i1 [] s s' Hs; [| exact Hs].
    exact (same_at_update k j i s s' k1 j1 i1 (fun v => v - c) Hs). }
  destruct q as [| [p | p |] | p]; try exact H;
    try (destruct p as [p | p |]; try exact H);
    cbv zeta; apply Hsub; apply Hadd; exact H.
Qed.

Lemma cell_step_same_at (k j i k0 j0 i0 : Z) (aF aF' : Array3) :
  same_at k j i aF aF' ->
  same_at k j i
    (cell_step a_wind b_bdry g_source info au usr k0 j0 i0 aF)
    (cell_step a_wind b_bdry g_source info au usr k0 j0 i0 aF').
Proof.
  intros H. unfold cell_step. cbv zeta.
  destruct ((i0 =? mx info - 1) || (j0 =? my info - 1))%Z.
  - apply nonadvective_same_at, H.
  - apply for_loop_rel; [apply nonadvective_same_at, H |].
    intros q s s' _ Hs. unfold face_step.
    destruct ((q <? 2) && (k0 <? zs info))%Z; [exact Hs |].
    apply accumulate_same_at, Hs.
Qed.

Lemma assemble_same_at (k j i : Z) (aF aF' : Array3) :
  same_at k j i aF aF' ->
  same_at k j i (assemble a_wind b_bdry g_source info au usr aF)
                (assemble a_wind b_bdry g_source info au usr aF').
Proof.
  intros H. unfold assemble, plane_pass, row_pass.
  apply for_loop_rel; [exact H |]. intros k0 s s' _ Hs.
  apply for_loop_rel; [exact Hs |]. intros j0 t t' _ Ht.
  apply for_loop_rel; [exact Ht |]. intros i0 r r' _ Hr.
  apply cell_step_same_at, Hr.
Qed.

End Independence.

(** C10. The residual at every owned cell is the same whatever the
    output array held at entry: the routine first stores 0 in every
    owned entry, and every later store to a cell depends on the array
    only through that cell's value. *)
Theorem C10_residual_independent_of_initial_aF
  (a_wind : R -> R -> R -> Z -> Ctx -> R)
  (b_bdry : R -> R -> Ctx -> R)
  (g_source : R -> R -> R -> R -> Ctx -> R)
  (info : DMDALocalInfo) (au : Array3) (usr : Ctx)
  (aF aF' : Array3) (k j i : Z) :
  owned info k j i ->
  clear_F info aF k j i = 0.0
  /\ snd (FormFunctionLocal a_wind b_bdry g_source info au usr aF) k j i
     = snd (FormFunctionLocal a_wind b_bdry g_source info au usr aF') k j i.
Proof.
  intros Hown. split; [apply clear_F_owned, Hown |].
  unfold FormFunctionLocal. simpl.
  apply assemble_same_at. unfold same_at.
  rewrite !clear_F_owned by exact Hown. reflexivity.
Qed.

Lemma C10_residual_independent_of_initial_aF_witness :
  snd (FormFunctionLocal wind_east no_bdry no_source grid_3x3x2 field_ones
         (sample_user NONE) field_zeros) 0%Z 1%Z 1%Z
  = snd (FormFunctionLocal wind_east no_bdry no_source grid_3x3x2 field_ones
           (sample_user NONE) field_ramp_x) 0%Z 1%Z 1%Z.
Proof.
  apply (proj2 (C10_residual_independent_of_initial_aF
                  wind_east no_bdry no_source grid_3x3x2 field_ones
                  (sample_user NONE) field_zeros field_ramp_x 0 1 1
                  ltac:(unfold owned; simpl; lia))).
Defined.

(** ** Face fluxes *)

Lemma Rgeb_true (x y : R) : x >= y -> Rgeb x y = true.
Proof. intros H. unfold Rgeb. destruct (Rge_dec x y); [reflexivity | contradiction]. Qed.

Lemma Rgeb_false (x y : R) : x < y -> Rgeb x y = false.
Proof. intros H. unfold Rgeb. destruct (Rge_dec x y); [lra | reflexivity]. Qed.

Lemma Rleb_true (x y : R) : x <= y -> Rleb x y = true.
Proof. intros H. unfold Rleb. destruct (Rle_dec x y); [reflexivity | contradiction]. Qed.

Lemma Rleb_false (x y : R) : y < x -> Rleb x y = false.
Proof. intros H. unfold Rleb. destruct (Rle_dec x y); [lra | reflexivity]. Qed.

Lemma Rneqb_same (x : R) : Rneqb x x = false.
Proof. unfold Rneqb. destruct (Req_dec_T x x); [reflexivity | congruence]. Qed.

Lemma Rneqb_true_neq (x y : R) : Rneqb x y = true -> x <> y.
Proof. unfold Rneqb. destruct (Req_dec_T x y); [discriminate | auto]. Qed.

Lemma Rneqb_neq (x y : R) : x <> y -> Rneqb x y = true.
Proof. intros H. unfold Rneqb. destruct (Req_dec_T x y); [contradiction | reflexivity]. Qed.

Section Fluxes.

Variable a_wind : R -> R -> R -> Z -> Ctx -> R.
Variable info : DMDALocalInfo.
Variable au : Array3.
Variable usr : Ctx.

(** The smoothness ratio is computed only over a non-zero
    denominator. *)
Lemma theta_denominator (k j i q : Z) (theta : R) :
  fe_theta (face_flux_eval a_wind info au usr k j i q) = Some theta ->
  downwind_value a_wind info au usr k j i q
  - upwind_value a_wind info au usr k j i q <> 0.
Proof.
  unfold face_flux_eval. cbv zeta.
  destruct (limiter_fcn usr) as [lim |]; [| discriminate].
  destruct (deep info j i); [| discriminate].
  destruct (Rneqb _ _) eqn:E; [| discriminate].
  intros _. apply Rneqb_true_neq in E. lra.
Qed.

End Fluxes.

(** C5. Whatever limiter is configured, at a face whose downwind value
    equals its upwind value the flux is the upwind flux a * u_up and the
    smoothness ratio is not computed; and whenever the ratio is computed
    its denominator u_dn - u_up is not zero. *)
Theorem C5_degenerate_ratio_safe
  (a_wind : R -> R -> R -> Z -> Ctx -> R)
  (info : DMDALocalInfo) (au : Array3) (usr : Ctx) (k j i q : Z) :
  (downwind_value a_wind info au usr k j i q
   = upwind_value a_wind info au usr k j i q ->
   face_flux a_wind info au usr k j i q
   = face_wind a_wind info usr k j i q * upwind_value a_wind info au usr k j i q
   /\ fe_theta (face_flux_eval a_wind info au usr k j i q) = None)
  /\ (forall theta,
        fe_theta (face_flux_eval a_wind info au usr k j i q) = Some theta ->
        downwind_value a_wind info au usr k j i q
        - upwind_value a_wind info au usr k j i q <> 0).
Proof.
  split; [| intros theta; apply theta_denominator].
  intros Heq. unfold face_flux, face_flux_eval. cbv zeta.
  rewrite Heq, Rneqb_same.
  destruct (limiter_fcn usr) as [lim |]; [| split; reflexivity].
  destruct (deep info j i); split; reflexivity.
Qed.

Lemma C5_degenerate_ratio_safe_witness :
  face_flux wind_east grid_6x6x5 field_ones (sample_user VANLEER) 0 2 2 0
  = face_wind wind_east grid_6x6x5 (sample_user VANLEER) 0 2 2 0
    * upwind_value wind_east grid_6x6x5 field_ones (sample_user VANLEER)
        0 2 2 0
  /\ fe_theta (face_flux_eval wind_east grid_6x6x5 field_ones
                 (sample_user VANLEER) 0 2 2 0) = None.
Proof.
  apply (proj1 (C5_degenerate_ratio_safe wind_east grid_6x6x5 field_ones
                  (sample_user VANLEER) 0 2 2 0)).
  reflexivity.
Defined.



(** ** Halo width and the reads of the residual routine *)

Section Reach.

Variable a_wind : R -> R -> R -> Z -> Ctx -> R.
Variable info : DMDALocalInfo.
Variable au : Array3.
Variable usr : Ctx.

Lemma stencil_width_pos : (1 <= stencil_width (limiter_fcn usr))%Z.
Proof. unfold stencil_width. destruct (limiter_fcn usr); lia. Qed.

Lemma nonadvective_reads_in_halo (k j i : Z) (c : Z * Z * Z) :
  (zs info - 1 <= k < zs info + zm info)%Z ->
  (ys info <= j < ys info + ym info)%Z ->
  (xs info <= i < xs info + xm info)%Z ->
  In c (nonadvective_reads info k j i) ->
  in_halo info (stencil_width (limiter_fcn usr)) c.
Proof.
  intros Hk Hj Hi. pose proof stencil_width_pos as Hw.
  unfold nonadvective_reads.
  destruct (Z.geb_spec k (zs info)) as [Hk' | Hk']; [| intros []].
  destruct (i =? mx info - 1)%Z.
  { intros [<- | []]. simpl. lia. }
  destruct ((i =? 0) || (j =? 0) || (j =? my info - 1))%Z.
  { intros [<- | []]. simpl. lia. }
  destruct (i =? mx info - 2)%Z, (i =? 1)%Z, (j =? my info - 2)%Z,
    (j =? 1)%Z; simpl; intros H;
    repeat (destruct H as [<- | H]; [simpl; lia |]); destruct H.
Qed.

Lemma flux_reads_in_halo (k j i q : Z) (c : Z * Z * Z) :
  (zs info - 1 <= k < zs info + zm info)%Z ->
  (ys info <= j < ys info + ym info)%Z ->
  (xs info <= i < xs info + xm info)%Z ->
  (0 <= q < 3)%Z ->
  (q < 2 -> zs info <= k)%Z ->
  In c (fe_reads (face_flux_eval a_wind info au usr k j i q)) ->
  in_halo info (stencil_width (limiter_fcn usr)) c.
Proof.
  intros Hk Hj Hi Hq Hqk.
  unfold face_flux_eval, stencil_width. cbv zeta.
  assert (Hd : ((q = 0 /\ dir_i q = 1 /\ dir_j q = 0 /\ dir_k q = 0)
            \/ (q = 1 /\ dir_i q = 0 /\ dir_j q = 1 /\ dir_k q = 0)
            \/ (q = 2 /\ dir_i q = 0 /\ dir_j q = 0 /\ dir_k q = 1))%Z).
  { assert (q = 0 \/ q = 1 \/ q = 2)%Z as [-> | [-> | ->]] by lia;
      [left | right; left | right; right]; repeat split. }
  destruct Hd as [(Eq & -> & -> & ->) | [(Eq & -> & -> & ->) | (Eq & -> & -> & ->)]];
    destruct (limiter_fcn usr) as [lim |];
    try destruct (deep info j i);
    try destruct (Rneqb _ _);
    destruct (Rgeb _ _); simpl; intros H;
    repeat (destruct H as [<- | H]; [simpl; lia |]); destruct H.
Qed.

Lemma cell_reads_in_halo (k j i : Z) (c : Z * Z * Z) :
  (zs info - 1 <= k < zs info + zm info)%Z ->
  (ys info <= j < ys info + ym info)%Z ->
  (xs info <= i < xs info + xm info)%Z ->
  In c (cell_reads a_wind info au usr k j i) ->
  in_halo info (stencil_width (limiter_fcn usr)) c.
Proof.
  intros Hk Hj Hi. unfold cell_reads. rewrite in_app_iff.
  intros [H | H]; [eapply nonadvective_reads_in_halo; eassumption |].
  destruct ((i =? mx info - 1) || (j =? my info - 1))%Z; [destruct H |].
  simpl in H. rewrite !in_app_iff in H.
  destruct (Z.ltb_spec k (zs info)) as [Hlt | Hge]; simpl in H.
  - destruct H as [[] | [[] | [H | []]]].
    eapply (flux_reads_in_halo k j i 2); try eassumption; lia.
  - destruct H as [H | [H | [H | []]]].
    + eapply (flux_reads_in_halo k j i 0); try eassumption; lia.
    + eapply (flux_reads_in_halo k j i 1); try eassumption; lia.
    + eapply (flux_reads_in_halo k j i 2); try eassumption; lia.
Qed.

End Reach.

(** A cell two away from the boundaries, a wind against the x axis and
    a field that is not flat: the far-upwind value two cells away is
    read, for the centered limiter as for van Leer's. *)
Lemma limiter_reads_two_cells_away (l : LimiterType) :
  l <> NONE ->
  In (0%Z, 2%Z, 4%Z)
     (cell_reads wind_west grid_6x6x5 field_ramp_x (sample_user l)
        0%Z 2%Z 2%Z).
Proof.
  intros Hl.
  assert (Ha : face_wind wind_west grid_6x6x5 (sample_user l) 0 2 2 0 = -1)
    by reflexivity.
  assert (Hup : upwind_value wind_west grid_6x6x5 field_ramp_x
                  (sample_user l) 0 2 2 0 = 3).
  { unfold upwind_value. cbv zeta. rewrite Ha.
    rewrite Rgeb_false by lra. unfold field_ramp_x. simpl. lra. }
  assert (Hdn : downwind_value wind_west grid_6x6x5 field_ramp_x
                  (sample_user l) 0 2 2 0 = 2).
  { unfold downwind_value. cbv zeta. rewrite Ha.
    rewrite Rgeb_false by lra. reflexivity. }
  assert (Hr : In (0%Z, 2%Z, 4%Z)
     (fe_reads (face_flux_eval wind_west grid_6x6x5 field_ramp_x (sample_user l) 0 2 2 0))).
  { unfold face_flux_eval. cbv zeta. rewrite Ha, Hup, Hdn.
    rewrite Rgeb_false by lra. rewrite Rneqb_neq by lra.
    destruct l; [contradiction | |]; simpl; right; right; left; reflexivity. }
  unfold cell_reads. rewrite in_app_iff. right.
  change ((2 =? mx grid_6x6x5 - 1) || (2 =? my grid_6x6x5 - 1))%Z with false.
  cbv iota. simpl flat_map. rewrite in_app_iff. left. exact Hr.
Qed.

(** ** Configuration *)

Lemma main_creates_grid (opts : Options) (user0 : Ctx) (l : LimiterType) :
  0 < configured_eps opts ->
  match opt_limiter opts with Some l' => l' | None => CENTERED end = l ->
  In (DMDACreate3d 6 6 (match l with NONE => 6 | _ => 5 end) 1
        (stencil_width (limiterptr l)))
     (fst (main all_succeed opts user0)).
Proof.
  intros He Hl. unfold main, configured_eps in *.
  rewrite Hl. clear Hl.
  rewrite Rleb_false by lra.
  destruct l; simpl; right; right; right; right; right; left; reflexivity.
Qed.

(** C8, as the claim states it, fails for the centered limiter: the
    width handed to the grid is 2, not 1. *)
Lemma C8_centered_halo_is_two :
  stencil_width (limiterptr CENTERED) = 2%Z
  /\ stencil_width (limiterptr CENTERED) <> 1%Z
  /\ In (DMDACreate3d 6 6 5 1 2)
        (fst (main all_succeed
                {| opt_eps := None; opt_limiter := Some CENTERED |}
                (sample_user NONE))).
Proof.
  split; [reflexivity | split; [discriminate |]].
  apply (main_creates_grid
           {| opt_eps := None; opt_limiter := Some CENTERED |}
           (sample_user NONE) CENTERED); [| reflexivity].
  unfold configured_eps. simpl. lra.
Qed.

(** C8 (amended). The halo width handed to the grid is 1 with no
    limiter and 2 with the centered or the van Leer limiter; whatever
    the limiter, every index of the field that a pass of the residual
    routine reads lies within that width of the owned box, and with a
    limiter set an index two cells from the owned cell is read. *)
Theorem C8_halo_covers_reach (l : LimiterType) :
  stencil_width (limiterptr l)
  = match l with NONE => 1%Z | CENTERED => 2%Z | VANLEER => 2%Z end
  /\ (forall opts user0,
        0 < configured_eps opts ->
        opt_limiter opts = Some l ->
        In (DMDACreate3d 6 6 (match l with NONE => 6 | _ => 5 end) 1
              (stencil_width (limiterptr l)))
           (fst (main all_succeed opts user0)))
  /\ (forall a_wind info au usr k j i c,
        limiter_fcn usr = limiterptr l ->
        (zs info - 1 <= k < zs info + zm info)%Z ->
        (ys info <= j < ys info + ym info)%Z ->
        (xs info <= i < xs info + xm info)%Z ->
        In c (cell_reads a_wind info au usr k j i) ->
        in_halo info (stencil_width (limiterptr l)) c)
  /\ (l <> NONE ->
      In (0%Z, 2%Z, 4%Z)
         (cell_reads wind_west grid_6x6x5 field_ramp_x (sample_user l)
            0%Z 2%Z 2%Z)).
Proof.
  split; [destruct l; reflexivity |].
  split; [| split].
  - intros opts user0 He Hl. apply main_creates_grid; [exact He |].
    rewrite Hl. reflexivity.
  - intros a_wind info au usr k j i c Hlim Hk Hj Hi Hin. rewrite <- Hlim.
    eapply cell_reads_in_halo; eassumption.
  - apply limiter_reads_two_cells_away.
Qed.

Lemma C8_halo_covers_reach_witness :
  in_halo grid_6x6x5 2 (0%Z, 2%Z, 4%Z).
Proof.
  assert (Hne : CENTERED <> NONE) by discriminate.
  apply (proj1 (proj2 (proj2 (C8_halo_covers_reach CENTERED)))
           wind_west grid_6x6x5 field_ramp_x (sample_user CENTERED)
           0%Z 2%Z 2%Z (0%Z, 2%Z, 4%Z)).
  - reflexivity.
  - simpl. lia.
  - simpl. lia.
  - simpl. lia.
  - exact (proj2 (proj2 (proj2 (C8_halo_covers_reach CENTERED))) Hne).
Defined.

(** C9. A run configured with eps <= 0 returns an error code before
    any grid or residual work: its trace stops within the three calls
    that end with the reading of [-ad3_eps], so it holds neither the
    creation of the grid nor the solve, and when the library calls
    succeed the code is 1.  A run with eps > 0 whose library calls
    succeed returns 0 and reaches the solve.  The residual routine
    returns 0 on every input. *)
Theorem C9_configuration_error
  (ext : Event -> PetscErrorCode) (opts : Options) (user0 : Ctx) :
  (configured_eps opts <= 0 ->
     (exists rest,
        fst (main ext opts user0) ++ rest
        = [PetscInitialize; PetscOptionsBegin; PetscOptionsReal])
     /\ (forall M N P dof s,
           ~ In (DMDACreate3d M N P dof s) (fst (main ext opts user0)))
     /\ ~ In SNESSolve (fst (main ext opts user0))
     /\ (exists code, snd (main ext opts user0) = inl code /\ code <> 0%Z)
     /\ ((forall ev, ext ev = 0%Z) ->
         main ext opts user0
         = ([PetscInitialize; PetscOptionsBegin; PetscOptionsReal],
            inl 1%Z)))
  /\ (0 < configured_eps opts ->
      (forall ev, ext ev = 0%Z) ->
      snd (main ext opts user0) = inr tt
      /\ In SNESSolve (fst (main ext opts user0)))
  /\ (forall a_wind b_bdry g_source info au usr aF,
        fst (FormFunctionLocal a_wind b_bdry g_source info au usr aF) = 0%Z).
Proof.
  split; [| split].
  - intros He. unfold configured_eps in He.
    assert (Hshort :
      (exists rest,
         fst (main ext opts user0) ++ rest
         = [PetscInitialize; PetscOptionsBegin; PetscOptionsReal])
      /\ (exists code, snd (main ext opts user0) = inl code /\ code <> 0%Z)
      /\ ((forall ev, ext ev = 0%Z) ->
          main ext opts user0
          = ([PetscInitialize; PetscOptionsBegin; PetscOptionsReal],
             inl 1%Z))).
    { unfold main, call.
      destruct (Z.eqb_spec (ext PetscOptionsBegin) 0) as [E1 | E1].
      - destruct (Z.eqb_spec (ext PetscOptionsReal) 0) as [E2 | E2].
        + rewrite Rleb_true by lra. simpl. repeat split.
          * exists []. reflexivity.
          * exists 1%Z. split; [reflexivity | discriminate].
        + simpl. repeat split.
          * exists []. reflexivity.
          * eexists. split; [reflexivity | exact E2].
          * intros Hext. specialize (Hext PetscOptionsReal). contradiction.
      - simpl. repeat split.
        + exists [PetscOptionsReal]. reflexivity.
        + eexists. split; [reflexivity | exact E1].
        + intros Hext. specialize (Hext PetscOptionsBegin). contradiction. }
    destruct Hshort as ([rest Hrest] & Hcode & Hall).
    assert (Hin : forall ev, In ev (fst (main ext opts user0)) ->
                    In ev [PetscInitialize; PetscOptionsBegin;
                           PetscOptionsReal]).
    { intros ev Hev. rewrite <- Hrest. apply in_or_app. left. exact Hev. }
    repeat split.
    + exists rest. exact Hrest.
    + intros M N P dof s Hev. apply Hin in Hev.
      simpl in Hev. intuition discriminate.
    + intros Hev. apply Hin in Hev. simpl in Hev. intuition discriminate.
    + exact Hcode.
    + exact Hall.
  - intros He Hext. unfold configured_eps in He. unfold main, call.
    rewrite Rleb_false by lra.
    rewrite !Hext. simpl. split; [reflexivity |].
    repeat (first [left; reflexivity | right]).
  - reflexivity.
Qed.

Lemma C9_configuration_error_witness :
  main all_succeed {| opt_eps := Some (-1); opt_limiter := None |}
       (sample_user NONE)
  = ([PetscInitialize; PetscOptionsBegin; PetscOptionsReal], inl 1%Z).
Proof.
  apply (proj1 (C9_configuration_error all_succeed
                  {| opt_eps := Some (-1); opt_limiter := None |}
                  (sample_user NONE))).
  - unfold configured_eps. simpl. lra.
  - intros ev. reflexivity.
Defined.

(** ** One cell of the residual *)

(** A loop whose passes all leave the cell as it was leaves it so. *)
Lemma loop_keeps (k j i : Z) (lo hi : Z) (body : Z -> Array3 -> Array3) :
  (forall v, (lo <= v < hi)%Z -> keeps k j i (body v)) ->
  keeps k j i (for_loop lo hi body).
Proof.
  intros H a.
  apply (for_loop_inv (fun s => s k j i = a k j i)); [reflexivity |].
  intros v s Hv Hs. rewrite (H v Hv). exact Hs.
Qed.

Lemma aset_at (a : Array3) (k j i : Z) (v : R) (k' j' i' : Z) :
  k' = k -> j' = j -> i' = i -> aset a k j i v k' j' i' = v.
Proof. intros -> -> ->. apply aset_same. Qed.

Lemma aset_off (a : Array3) (k j i : Z) (v : R) (k' j' i' : Z) :
  (k' <> k \/ j' <> j \/ i' <> i) -> aset a k j i v k' j' i' = a k' j' i'.
Proof. intros H. apply aset_other. intros [=]. lia. Qed.

Lemma for_loop_faces (f : Z -> Array3 -> Array3) (a : Array3) :
  for_loop 0 3 f a = f 2%Z (f 1%Z (f 0%Z a)).
Proof. reflexivity. Qed.

Section CellEffects.

Variable a_wind : R -> R -> R -> Z -> Ctx -> R.
Variable b_bdry : R -> R -> Ctx -> R.
Variable g_source : R -> R -> R -> R -> Ctx -> R.
Variable info : DMDALocalInfo.
Variable au : Array3.
Variable usr : Ctx.

Let step := cell_step a_wind b_bdry g_source info au usr.
Let flux := face_flux a_wind info au usr.

Lemma nonadvective_keeps (k j i k' j' i' : Z) :
  (k <> k' \/ j <> j' \/ i <> i') ->
  keeps k j i (nonadvective b_bdry g_source info au usr k' j' i').
Proof.
  intros Hne a. unfold nonadvective. cbv zeta.
  destruct (k' >=? zs info)%Z; [| reflexivity].
  destruct (i' =? mx info - 1)%Z; [apply aset_off, Hne |].
  destruct ((i' =? 0) || (j' =? 0) || (j' =? my info - 1))%Z;
    apply aset_off, Hne.
Qed.

(** The east flux of cell (i',j',k') goes to that cell and to its east
    neighbour, the north flux to the cell and to its north neighbour. *)
Lemma face_step_east_keeps (k j i k' j' i' : Z) :
  (k <> k' \/ j <> j' \/ (i <> i' /\ i <> i' + 1))%Z ->
  keeps k j i (face_step a_wind info au usr k' j' i' 0).
Proof.
  intros Hne a. unfold face_step, accumulate.
  destruct ((0 <? 2) && (k' <? zs info))%Z; [reflexivity |].
  cbv zeta.
  destruct ((i' <? mx info - 1) && (i' + 1 <? xs info + xm info))%Z;
    destruct (i' >? 0)%Z;
    rewrite ?aset_off by lia; reflexivity.
Qed.

Lemma face_step_north_keeps (k j i k' j' i' : Z) :
  (k <> k' \/ i <> i' \/ (j <> j' /\ j <> j' + 1))%Z ->
  keeps k j i (face_step a_wind info au usr k' j' i' 1).
Proof.
  intros Hne a. unfold face_step, accumulate.
  destruct ((1 <? 2) && (k' <? zs info))%Z; [reflexivity |].
  cbv zeta.
  destruct ((j' <? my info - 1) && (j' + 1 <? ys info + ym info))%Z;
    destruct (j' >? 0)%Z;
    rewrite ?aset_off by lia; reflexivity.
Qed.

Lemma face_step_top_keeps (k j i k' j' i' : Z) :
  keeps k j i (face_step a_wind info au usr k' j' i' 2).
Proof.
  intros a. unfold face_step, accumulate.
  destruct ((2 <? 2) && (k' <? zs info))%Z; reflexivity.
Qed.

Lemma cell_step_keeps (k j i k' j' i' : Z) :
  (k <> k'
   \/ (j <> j' /\ j <> j' + 1)
   \/ (i <> i' /\ i <> i' + 1)
   \/ (j = j' + 1 /\ i <> i')
   \/ (i = i' + 1 /\ j <> j'))%Z ->
  keeps k j i (step k' j' i').
Proof.
  intros Hne a. unfold step, cell_step. cbv zeta.
  destruct ((i' =? mx info - 1) || (j' =? my info - 1))%Z.
  - apply nonadvective_keeps. lia.
  - rewrite for_loop_faces.
    rewrite face_step_top_keeps.
    rewrite face_step_north_keeps by lia.
    rewrite face_step_east_keeps by lia.
    apply nonadvective_keeps. lia.
Qed.

(** What a pass leaves at the east neighbour of its cell. *)
Lemma cell_step_at_east (k j i : Z) (a : Array3) :
  (zs info <= k)%Z -> (j <> my info - 1)%Z ->
  (i < mx info)%Z -> (i < xs info + xm info)%Z ->
  step k j (i - 1)%Z a k j i = a k j i - flux k j (i - 1)%Z 0 / grid_hx info.
Proof.
  intros Hk Hj Hi Hown. unfold step, cell_step. cbv zeta.
  replace ((i - 1 =? mx info - 1) || (j =? my info - 1))%Z with false
    by (symmetry; apply orb_false_iff; split; apply Z.eqb_neq; lia).
  rewrite for_loop_faces.
  rewrite face_step_top_keeps.
  rewrite face_step_north_keeps by lia.
  unfold face_step, accumulate.
  replace ((0 <? 2) && (k <? zs info))%Z with false
    by (symmetry; apply andb_false_iff; right; apply Z.ltb_ge; lia).
  cbv zeta.
  replace ((i - 1 <? mx info - 1) && (i - 1 + 1 <? xs info + xm info))%Z
    with true
    by (symmetry; apply andb_true_iff; split; apply Z.ltb_lt; lia).
  rewrite aset_at by lia.
  replace (i - 1 + 1)%Z with i by lia.
  destruct (i - 1 >? 0)%Z; rewrite ?aset_off by lia;
    rewrite nonadvective_keeps by lia; reflexivity.
Qed.

(** What a pass leaves at the north neighbour of its cell. *)
Lemma cell_step_at_north (k j i : Z) (a : Array3) :
  (zs info <= k)%Z -> (i <> mx info - 1)%Z ->
  (j < my info)%Z -> (j < ys info + ym info)%Z ->
  step k (j - 1)%Z i a k j i = a k j i - flux k (j - 1)%Z i 1 / grid_hy info.
Proof.
  intros Hk Hi Hj Hown. unfold step, cell_step. cbv zeta.
  replace ((i =? mx info - 1) || (j - 1 =? my info - 1))%Z with false
    by (symmetry; apply orb_false_iff; split; apply Z.eqb_neq; lia).
  rewrite for_loop_faces.
  rewrite face_step_top_keeps.
  unfold face_step at 1. unfold accumulate.
  replace ((1 <? 2) && (k <? zs info))%Z with false
    by (symmetry; apply andb_false_iff; right; apply Z.ltb_ge; lia).
  cbv zeta.
  replace ((j - 1 <? my info - 1) && (j - 1 + 1 <? ys info + ym info))%Z
    with true
    by (symmetry; apply andb_true_iff; split; apply Z.ltb_lt; lia).
  rewrite aset_at by lia.
  replace (j - 1 + 1)%Z with j by lia.
  destruct (j - 1 >? 0)%Z; rewrite ?aset_off by lia;
    rewrite face_step_east_keeps by lia;
    rewrite nonadvective_keeps by lia; reflexivity.
Qed.

(** What a pass leaves at its own cell: the non-advective part, then
    the east flux when [i > 0], then the north flux when [j > 0]. *)
Lemma cell_step_at_own (k j i : Z) (a : Array3) :
  (zs info <= k)%Z -> (i <> mx info - 1)%Z -> (j <> my info - 1)%Z ->
  step k j i a k j i
  = (if (j >? 0)%Z then fun v => v + flux k j i 1 / grid_hy info
     else fun v => v)
      ((if (i >? 0)%Z then fun v => v + flux k j i 0 / grid_hx info
        else fun v => v)
         (nonadvective b_bdry g_source info au usr k j i a k j i)).
Proof.
  intros Hk Hi Hj. unfold step, cell_step. cbv zeta.
  replace ((i =? mx info - 1) || (j =? my info - 1))%Z with false
    by (symmetry; apply orb_false_iff; split; apply Z.eqb_neq; lia).
  rewrite for_loop_faces.
  rewrite face_step_top_keeps.
  unfold face_step, accumulate.
  replace ((1 <? 2) && (k <? zs info))%Z with false
    by (symmetry; apply andb_false_iff; right; apply Z.ltb_ge; lia).
  replace ((0 <? 2) && (k <? zs info))%Z with false
    by (symmetry; apply andb_false_iff; right; apply Z.ltb_ge; lia).
  cbv zeta.
  destruct ((j <? my info - 1) && (j + 1 <? ys info + ym info))%Z;
    destruct (j >? 0)%Z;
    destruct ((i <? mx info - 1) && (i + 1 <? xs info + xm info))%Z;
    destruct (i >? 0)%Z;
    repeat first [ rewrite aset_same | rewrite aset_off by lia ];
    reflexivity.
Qed.

Lemma cell_step_at_skipped (k j i : Z) (a : Array3) :
  (i = mx info - 1 \/ j = my info - 1)%Z ->
  step k j i a k j i = nonadvective b_bdry g_source info au usr k j i a k j i.
Proof.
  intros H. unfold step, cell_step. cbv zeta.
  replace ((i =? mx info - 1) || (j =? my info - 1))%Z with true;
    [reflexivity |].
  symmetry. apply orb_true_iff.
  destruct H as [H | H]; [left | right]; apply Z.eqb_eq; exact H.
Qed.

End CellEffects.

Section OwnedCell.

Variable a_wind : R -> R -> R -> Z -> Ctx -> R.
Variable b_bdry : R -> R -> Ctx -> R.
Variable g_source : R -> R -> R -> R -> Ctx -> R.
Variable info : DMDALocalInfo.
Variable au : Array3.
Variable usr : Ctx.

Variables k j i : Z.
Hypothesis Hbox : box_in_grid info.
Hypothesis Hown : owned info k j i.

Lemma row_pass_keeps (k' j' : Z) :
  (k <> k' \/ (j <> j' /\ j <> j' + 1))%Z ->
  keeps k j i (row_pass a_wind b_bdry g_source info au usr k' j').
Proof.
  intros H. apply loop_keeps. intros i' _. apply cell_step_keeps. lia.
Qed.

Lemma plane_pass_keeps (k' : Z) :
  k <> k' -> keeps k j i (plane_pass a_wind b_bdry g_source info au usr k').
Proof.
  intros H. apply loop_keeps. intros j' _. apply row_pass_keeps. lia.
Qed.

(** The passes over the cells west of (i,j,k) in its row. *)
Lemma west_cells_value (a : Array3) :
  (j <> my info - 1)%Z ->
  for_loop (xs info) i
    (fun i a => cell_step a_wind b_bdry g_source info au usr k j i a) a k j i
  = if (xs info <? i)%Z
    then a k j i - face_flux a_wind info au usr k j (i - 1)%Z 0 / grid_hx info
    else a k j i.
Proof.
  intros Hj. destruct Hbox as [Hx Hy]. destruct Hown as (Hk & Hj' & Hi).
  destruct (Z.ltb_spec (xs info) i) as [Hlt | Hge].
  - rewrite for_loop_last by lia.
    rewrite cell_step_at_east by lia.
    rewrite loop_keeps; [reflexivity |].
    intros i' Hi'. apply cell_step_keeps. lia.
  - rewrite for_loop_none by lia. reflexivity.
Qed.

(** The passes over the rows south of (i,j,k) in its plane. *)
Lemma south_rows_value (a : Array3) :
  (i <> mx info - 1)%Z ->
  for_loop (ys info) j
    (fun j a => row_pass a_wind b_bdry g_source info au usr k j a) a k j i
  = if (ys info <? j)%Z
    then a k j i - face_flux a_wind info au usr k (j - 1)%Z i 1 / grid_hy info
    else a k j i.
Proof.
  intros Hi. destruct Hbox as [Hx Hy]. destruct Hown as (Hk & Hj & Hi').
  destruct (Z.ltb_spec (ys info) j) as [Hlt | Hge].
  - rewrite for_loop_last by lia.
    unfold row_pass at 1.
    rewrite (for_loop_around (xs info) (xs info + xm info) i) by lia.
    rewrite loop_keeps
      by (intros i' Hi''; apply cell_step_keeps; lia).
    rewrite cell_step_at_north by lia.
    rewrite loop_keeps
      by (intros i' Hi''; apply cell_step_keeps; lia).
    rewrite loop_keeps; [reflexivity |].
    intros j' Hj''. apply row_pass_keeps. lia.
  - rewrite for_loop_none by lia. reflexivity.
Qed.

Lemma earlier_planes_value (a : Array3) :
  for_loop (zs info - 1) k
    (fun k a => plane_pass a_wind b_bdry g_source info au usr k a) a k j i
  = a k j i.
Proof.
  apply loop_keeps. intros k' Hk'. apply plane_pass_keeps. lia.
Qed.

(** The value at the cell after the loops is the one its own pass
    leaves, taken on the array as the earlier passes left it. *)
Lemma assemble_at_own_pass (a : Array3) :
  assemble a_wind b_bdry g_source info au usr a k j i
  = cell_step a_wind b_bdry g_source info au usr k j i
      (for_loop (xs info) i
         (fun i a => cell_step a_wind b_bdry g_source info au usr k j i a)
         (for_loop (ys info) j
            (fun j a => row_pass a_wind b_bdry g_source info au usr k j a)
            (for_loop (zs info - 1) k
               (fun k a => plane_pass a_wind b_bdry g_source info au usr k a)
               a))) k j i.
Proof.
  destruct Hown as (Hk & Hj & Hi).
  unfold assemble.
  rewrite (for_loop_around (zs info - 1) (zs info + zm info) k) by lia.
  rewrite loop_keeps by (intros k' Hk'; apply plane_pass_keeps; lia).
  unfold plane_pass at 1.
  rewrite (for_loop_around (ys info) (ys info + ym info) j) by lia.
  rewrite loop_keeps by (intros j' Hj'; apply row_pass_keeps; lia).
  unfold row_pass at 1.
  rewrite (for_loop_around (xs info) (xs info + xm info) i) by lia.
  rewrite loop_keeps by (intros i' Hi'; apply cell_step_keeps; lia).
  reflexivity.
Qed.

(** The residual the routine leaves at an owned cell. *)
Theorem residual_at_owned_cell (aF : Array3) :
  snd (FormFunctionLocal a_wind b_bdry g_source info au usr aF) k j i
  = residual_value a_wind b_bdry g_source info au usr k j i.
Proof.
  unfold FormFunctionLocal. cbn [snd].
  rewrite assemble_at_own_pass.
  destruct Hbox as [Hx Hy]. destruct Hown as (Hk & Hj & Hi).
  unfold residual_value.
  destruct (Z.eqb_spec i (mx info - 1)) as [Ei | Ei].
  { rewrite cell_step_at_skipped by lia.
    unfold nonadvective. cbv zeta.
    replace (k >=? zs info)%Z with true by (symmetry; apply Z.geb_le; lia).
    replace (i =? mx info - 1)%Z with true by (symmetry; apply Z.eqb_eq; lia).
    apply aset_same. }
  destruct (Z.eqb_spec j (my info - 1)) as [Ej | Ej].
  { rewrite cell_step_at_skipped by lia.
    unfold nonadvective. cbv zeta.
    replace (k >=? zs info)%Z with true by (symmetry; apply Z.geb_le; lia).
    replace (i =? mx info - 1)%Z with false
      by (symmetry; apply Z.eqb_neq; lia).
    replace (j =? my info - 1)%Z with true by (symmetry; apply Z.eqb_eq; lia).
    rewrite orb_true_r. apply aset_same. }
  rewrite cell_step_at_own by lia.
  unfold nonadvective. cbv zeta.
  replace (k >=? zs info)%Z with true by (symmetry; apply Z.geb_le; lia).
  replace (i =? mx info - 1)%Z with false by (symmetry; apply Z.eqb_neq; lia).
  replace (j =? my info - 1)%Z with false by (symmetry; apply Z.eqb_neq; lia).
  rewrite orb_false_r.
  destruct (Z.eqb_spec i 0) as [Ei0 | Ei0];
    destruct (Z.eqb_spec j 0) as [Ej0 | Ej0]; cbn [orb];
    rewrite aset_same;
    destruct (Z.gtb_spec i 0) as [Gi | Gi]; try lia;
    destruct (Z.gtb_spec j 0) as [Gj | Gj]; try lia;
    try reflexivity.
  rewrite west_cells_value by lia.
  rewrite south_rows_value by lia.
  rewrite earlier_planes_value.
  rewrite clear_F_owned by (repeat split; lia).
  unfold diffusion_source. cbv zeta.
  destruct (xs info <? i)%Z; destruct (ys info <? j)%Z; reflexivity.
Qed.

(** On the faces i = mx-1 and j = my-1 the residual is the boundary
    value alone. *)
Corollary residual_on_east_face (aF : Array3) :
  i = (mx info - 1)%Z ->
  snd (FormFunctionLocal a_wind b_bdry g_source info au usr aF) k j i
  = au k j i - b_bdry (coord_y info j) (coord_z info k) usr.
Proof.
  intros E. rewrite residual_at_owned_cell. unfold residual_value.
  rewrite (proj2 (Z.eqb_eq _ _) E). reflexivity.
Qed.

Corollary residual_on_north_face (aF : Array3) :
  i <> (mx info - 1)%Z -> j = (my info - 1)%Z ->
  snd (FormFunctionLocal a_wind b_bdry g_source info au usr aF) k j i
  = au k j i.
Proof.
  intros Ei Ej. rewrite residual_at_owned_cell. unfold residual_value.
  rewrite (proj2 (Z.eqb_neq _ _) Ei), (proj2 (Z.eqb_eq _ _) Ej).
  reflexivity.
Qed.

(** On the face j = 0, away from the corners, the residual is the
    boundary value and the flux through the east face of the cell; on
    the face i = 0 it is the boundary value and the flux through the
    north face. *)
Corollary residual_on_south_face (aF : Array3) :
  (0 < i < mx info - 1)%Z -> j = 0%Z -> (1 < my info)%Z ->
  snd (FormFunctionLocal a_wind b_bdry g_source info au usr aF) k j i
  = au k j i + face_flux a_wind info au usr k j i 0 / grid_hx info.
Proof.
  intros Ei Ej Hmy. rewrite residual_at_owned_cell. unfold residual_value.
  replace (i =? mx info - 1)%Z with false by (symmetry; apply Z.eqb_neq; lia).
  replace (j =? my info - 1)%Z with false by (symmetry; apply Z.eqb_neq; lia).
  replace (i =? 0)%Z with false by (symmetry; apply Z.eqb_neq; lia).
  rewrite (proj2 (Z.eqb_eq _ _) Ej). reflexivity.
Qed.

Corollary residual_on_west_face (aF : Array3) :
  i = 0%Z -> (0 < j < my info - 1)%Z -> (1 < mx info)%Z ->
  snd (FormFunctionLocal a_wind b_bdry g_source info au usr aF) k j i
  = au k j i + face_flux a_wind info au usr k j i 1 / grid_hy info.
Proof.
  intros Ei Ej Hmx. rewrite residual_at_owned_cell. unfold residual_value.
  replace (i =? mx info - 1)%Z with false by (symmetry; apply Z.eqb_neq; lia).
  replace (j =? my info - 1)%Z with false by (symmetry; apply Z.eqb_neq; lia).
  rewrite (proj2 (Z.eqb_eq _ _) Ei).
  replace (j =? 0)%Z with false by (symmetry; apply Z.eqb_neq; lia).
  reflexivity.
Qed.

(** Inside the grid, the first owned cell of a row does not receive
    the flux through its west face. *)
Corollary residual_of_first_owned_cell (aF : Array3) :
  (0 < i < mx info - 1)%Z -> (0 < j < my info - 1)%Z -> i = xs info ->
  snd (FormFunctionLocal a_wind b_bdry g_source info au usr aF) k j i
  = (if (ys info <? j)%Z
     then 0.0 - face_flux a_wind info au usr k (j - 1)%Z i 1 / grid_hy info
     else 0.0)
    - diffusion_source b_bdry g_source info au usr k j i
    + face_flux a_wind info au usr k j i 0 / grid_hx info
    + face_flux a_wind info au usr k j i 1 / grid_hy info.
Proof.
  intros Ei Ej Exs. rewrite residual_at_owned_cell. unfold residual_value.
  replace (i =? mx info - 1)%Z with false by (symmetry; apply Z.eqb_neq; lia).
  replace (j =? my info - 1)%Z with false by (symmetry; apply Z.eqb_neq; lia).
  replace (i =? 0)%Z with false by (symmetry; apply Z.eqb_neq; lia).
  replace (j =? 0)%Z with false by (symmetry; apply Z.eqb_neq; lia).
  cbv zeta.
  replace (xs info <? i)%Z with false by (symmetry; apply Z.ltb_ge; lia).
  reflexivity.
Qed.

End OwnedCell.

(** ** The residual on sample inputs *)

(** Unfold the loops on a concrete grid down to the arithmetic on the
    field values, then settle the sign tests on the wind. *)
Ltac eval_residual :=
  lazy -[Rplus Rminus Rmult Rdiv Rinv Ropp IZR Q2R Rgeb Rneqb Rleb
         exp sin cos PI layer_u].

Ltac settle_tests :=
  repeat match goal with
         | |- context [Rgeb ?a ?b] =>
             first [ rewrite (Rgeb_true a b) by lra
                   | rewrite (Rgeb_false a b) by lra ]
         end.

Ltac compute_residual := eval_residual; settle_tests; lra.

Section TopFlux.

Variables a_wind a_wind' : R -> R -> R -> Z -> Ctx -> R.
Variable b_bdry : R -> R -> Ctx -> R.
Variable g_source : R -> R -> R -> R -> Ctx -> R.
Variable info : DMDALocalInfo.
Variable au : Array3.
Variable usr : Ctx.

Lemma face_flux_wind_ext (k j i q : Z) :
  (forall x y z, a_wind x y z q usr = a_wind' x y z q usr) ->
  face_flux a_wind info au usr k j i q
  = face_flux a_wind' info au usr k j i q.
Proof.
  intros H.
  unfold face_flux, face_flux_eval, upwind_value, downwind_value, face_wind.
  cbv zeta. rewrite H. reflexivity.
Qed.

(** The switch has no label for the top face. *)
Lemma accumulate_top (k j i : Z) (flux : R) (aF : Array3) :
  accumulate info k j i 2 flux aF = aF.
Proof. reflexivity. Qed.

Hypothesis same_horizontal_wind :
  forall x y z q, q <> 2%Z -> a_wind x y z q usr = a_wind' x y z q usr.

Lemma cell_step_top_wind (k j i : Z) (aF : Array3) :
  cell_step a_wind b_bdry g_source info au usr k j i aF
  = cell_step a_wind' b_bdry g_source info au usr k j i aF.
Proof.
  unfold cell_step. cbv zeta.
  destruct ((i =? mx info - 1) || (j =? my info - 1))%Z; [reflexivity |].
  unfold for_loop. simpl. unfold face_step.
  rewrite !accumulate_top.
  rewrite (face_flux_wind_ext k j i 0)
    by (intros; apply same_horizontal_wind; discriminate).
  rewrite (face_flux_wind_ext k j i 1)
    by (intros; apply same_horizontal_wind; discriminate).
  simpl. destruct (k <? zs info)%Z; reflexivity.
Qed.

(** The wind through the top faces has no effect on the residual. *)
Lemma assemble_top_wind (aF : Array3) :
  assemble a_wind b_bdry g_source info au usr aF
  = assemble a_wind' b_bdry g_source info au usr aF.
Proof.
  unfold assemble, plane_pass, row_pass.
  apply for_loop_ext. intros k s _.
  apply for_loop_ext. intros j t _.
  apply for_loop_ext. intros i r _.
  apply cell_step_top_wind.
Qed.

End TopFlux.

(** C1 (what the code does). On a 3 x 3 x 2 grid with wind (0,0,1) and
    a field that is 1 on the plane k = 0 and 0 on the plane k = 1, the
    flux through the top face of cell (1,1,0) is 1 and through its bottom
    face 0, with hz = 1; the residual of the cell is 6, which is its
    residual with no wind at all: no top-face flux has been added. *)
Theorem C1_top_flux_not_accumulated :
  face_flux wind_up grid_3x3x2 field_even_planes (sample_user NONE) 0 1 1 2
  = 1
  /\ face_flux wind_up grid_3x3x2 field_even_planes (sample_user NONE)
       (-1) 1 1 2 = 0
  /\ grid_hz grid_3x3x2 = 1
  /\ snd (FormFunctionLocal wind_up no_bdry no_source grid_3x3x2
            field_even_planes (sample_user NONE) field_zeros) 0%Z 1%Z 1%Z
     = 6
  /\ snd (FormFunctionLocal wind_none no_bdry no_source grid_3x3x2
            field_even_planes (sample_user NONE) field_zeros) 0%Z 1%Z 1%Z
     = 6.
Proof.
  repeat split; compute_residual.
Qed.

(** C2 (what the code does). With wind (1,0,0) and a field of ones, the
    residual of cell (2,1,0) of a 4 x 3 x 2 grid is 17/4 when one process
    owns the grid and 23/4 when the process owns the east half: the flux
    through the west face of the first owned cell is not subtracted.
    The same happens in y with wind (0,1,0) at cell (1,2,0) of a
    3 x 4 x 2 grid. *)
Theorem C2_decomposition_changes_residual :
  snd (FormFunctionLocal wind_east no_bdry no_source grid_4x3x2
         field_ones (sample_user NONE) field_zeros) 0%Z 1%Z 2%Z = 17 / 4
  /\ snd (FormFunctionLocal wind_east no_bdry no_source grid_4x3x2_east
            field_ones (sample_user NONE) field_zeros) 0%Z 1%Z 2%Z = 23 / 4
  /\ snd (FormFunctionLocal wind_north no_bdry no_source grid_3x4x2
            field_ones (sample_user NONE) field_zeros) 0%Z 2%Z 1%Z = 17 / 4
  /\ snd (FormFunctionLocal wind_north no_bdry no_source grid_3x4x2_north
            field_ones (sample_user NONE) field_zeros) 0%Z 2%Z 1%Z = 23 / 4.
Proof.
  repeat split; compute_residual.
Qed.

(** C3 (what the code does). With wind (1,0,0) and a field of ones on
    a 3 x 3 x 2 grid, the residual of the boundary cell (1,0,0), on the
    face j = 0, is 2 and not u - 0 = 1: the flux through its east face
    has been added to it. *)
Theorem C3_boundary_cell_receives_flux :
  snd (FormFunctionLocal wind_east no_bdry no_source grid_3x3x2
         field_ones (sample_user NONE) field_zeros) 0%Z 0%Z 1%Z = 2
  /\ field_ones 0%Z 0%Z 1%Z - 0 = 1.
Proof.
  split; compute_residual.
Qed.

(** ** The exact solution *)

Lemma layer_u_top_plane (x y eps : R) : layer_u x y 1 eps = 0.
Proof.
  unfold layer_u. cbv zeta.
  replace (FF * (1 + 1.0)) with PI by (unfold FF; lra).
  rewrite sin_PI. ring.
Qed.

Lemma layer_u_east_face (y z : R) :
  layer_u 1 y z 1 = sin (EE * (y + 1.0)) * sin (FF * (z + 1.0)).
Proof.
  unfold layer_u. cbv zeta.
  replace ((1 - 1) / 1) with 0 by lra. rewrite exp_0.
  assert (HC : exp (- 2.0 / 1) < 1).
  { apply Rlt_le_trans with (exp 0); [apply exp_increasing; lra |].
    rewrite exp_0. lra. }
  rewrite lit_one. field. lra.
Qed.

(** C4 (what the code does). On the 6 x 6 x 5 grid with eps = 1, the
    evaluator stores 0 at cell (5,1,1), whatever the local [j] held at
    entry: the z coordinate it uses there is -1 + 6 * (2/6) = 1.  The
    exact solution at that cell's coordinates is positive. *)
Theorem C4_exact_solution_misplaced (j0 : Z) (auex : Array3) :
  FormLayerUExact grid_6x6x5 (sample_user CENTERED) j0 auex 1%Z 1%Z 5%Z = 0
  /\ 0 < layer_u_at_cell grid_6x6x5 (sample_user CENTERED) 1 1 5.
Proof.
  split.
  - eval_residual.
    replace (-1.0 + 6 * (2.0 / 6)) with 1 by lra.
    apply layer_u_top_plane.
  - eval_residual.
    replace (-1.0 + 5 * (2.0 / 5)) with 1 by lra.
    rewrite layer_u_east_face.
    pose proof PI_RGT_0 as Hpi.
    apply Rmult_lt_0_compat; apply sin_gt_0; unfold EE, FF; lra.
Qed.

(** ** Entries outside the owned box *)

Section Unowned.

Variable a_wind : R -> R -> R -> Z -> Ctx -> R.
Variable b_bdry : R -> R -> Ctx -> R.
Variable g_source : R -> R -> R -> R -> Ctx -> R.
Variable info : DMDALocalInfo.
Variable au : Array3.
Variable usr : Ctx.

Variables k j i : Z.
Hypothesis Hout : ~ owned info k j i.

Lemma clear_F_unowned (aF : Array3) : clear_F info aF k j i = aF k j i.
Proof.
  unfold clear_F.
  apply loop_keeps. intros k' Hk'.
  apply loop_keeps. intros j' Hj'.
  apply loop_keeps. intros i' Hi' a.
  apply aset_off. unfold owned in Hout. lia.
Qed.

Lemma nonadvective_unowned (k' j' i' : Z) :
  (ys info <= j' < ys info + ym info)%Z ->
  (xs info <= i' < xs info + xm info)%Z ->
  (k' < zs info + zm info)%Z ->
  keeps k j i (nonadvective b_bdry g_source info au usr k' j' i').
Proof.
  intros Hj' Hi' Hk' a. unfold nonadvective. cbv zeta.
  unfold owned in Hout.
  destruct (Z.geb_spec k' (zs info)) as [Hge | Hlt]; [| reflexivity].
  destruct (i' =? mx info - 1)%Z; [apply aset_off; lia |].
  destruct ((i' =? 0) || (j' =? 0) || (j' =? my info - 1))%Z;
    apply aset_off; lia.
Qed.

Lemma face_step_unowned (k' j' i' q : Z) :
  (ys info <= j' < ys info + ym info)%Z ->
  (xs info <= i' < xs info + xm info)%Z ->
  (k' < zs info + zm info)%Z ->
  (0 <= q < 3)%Z ->
  keeps k j i (face_step a_wind info au usr k' j' i' q).
Proof.
  intros Hj' Hi' Hk' Hq a. unfold owned in Hout.
  assert (q = 0 \/ q = 1 \/ q = 2)%Z as [-> | [-> | ->]] by lia.
  - unfold face_step, accumulate.
    change (0 <? 2)%Z with true. cbn [andb].
    destruct (Z.ltb_spec k' (zs info)) as [Hlt | Hge]; [reflexivity |].
    cbv zeta.
    destruct (Z.ltb_spec i' (mx info - 1)); cbn [andb];
      [destruct (Z.ltb_spec (i' + 1) (xs info + xm info)) |];
      destruct (i' >? 0)%Z; rewrite ?aset_off by lia; reflexivity.
  - unfold face_step, accumulate.
    change (1 <? 2)%Z with true. cbn [andb].
    destruct (Z.ltb_spec k' (zs info)) as [Hlt | Hge]; [reflexivity |].
    cbv zeta.
    destruct (Z.ltb_spec j' (my info - 1)); cbn [andb];
      [destruct (Z.ltb_spec (j' + 1) (ys info + ym info)) |];
      destruct (j' >? 0)%Z; rewrite ?aset_off by lia; reflexivity.
  - apply face_step_top_keeps.
Qed.

Lemma cell_step_unowned (k' j' i' : Z) :
  (ys info <= j' < ys info + ym info)%Z ->
  (xs info <= i' < xs info + xm info)%Z ->
  (k' < zs info + zm info)%Z ->
  keeps k j i (cell_step a_wind b_bdry g_source info au usr k' j' i').
Proof.
  intros Hj' Hi' Hk' a. unfold cell_step. cbv zeta.
  destruct ((i' =? mx info - 1) || (j' =? my info - 1))%Z.
  - apply nonadvective_unowned; assumption.
  - rewrite for_loop_faces.
    rewrite !face_step_unowned by (assumption || lia).
    apply nonadvective_unowned; assumption.
Qed.

Lemma assemble_unowned (aF : Array3) :
  assemble a_wind b_bdry g_source info au usr aF k j i = aF k j i.
Proof.
  unfold assemble, plane_pass, row_pass.
  apply loop_keeps. intros k' Hk'.
  apply loop_keeps. intros j' Hj'.
  apply loop_keeps. intros i' Hi'.
  apply cell_step_unowned; lia.
Qed.

End Unowned.

(** X2. The residual routine stores only into entries of the owned
    box: every other entry of the output array holds after the call
    what it held before. *)
Theorem X2_unowned_entries_untouched
  (a_wind : R -> R -> R -> Z -> Ctx -> R)
  (b_bdry : R -> R -> Ctx -> R)
  (g_source : R -> R -> R -> R -> Ctx -> R)
  (info : DMDALocalInfo) (au : Array3) (usr : Ctx)
  (aF : Array3) (k j i : Z) :
  ~ owned info k j i ->
  snd (FormFunctionLocal a_wind b_bdry g_source info au usr aF) k j i
  = aF k j i.
Proof.
  intros Hout. unfold FormFunctionLocal. cbn [snd].
  rewrite assemble_unowned by exact Hout.
  apply clear_F_unowned, Hout.
Qed.

Lemma X2_unowned_entries_untouched_witness :
  snd (FormFunctionLocal wind_east no_bdry no_source grid_4x3x2_east
         field_ones (sample_user VANLEER) field_ramp_x) 0%Z 1%Z 1%Z
  = field_ramp_x 0%Z 1%Z 1%Z.
Proof.
  apply (X2_unowned_entries_untouched wind_east no_bdry no_source
           grid_4x3x2_east field_ones (sample_user VANLEER) field_ramp_x
           0 1 1).
  unfold owned. simpl. lia.
Defined.

(** X1. At every cell of an owned box that lies within the grid, the
    residual the routine returns is [residual_value]: the Dirichlet
    value on the faces i = mx-1 and j = my-1, the Dirichlet value and
    the cell's own east or north flux on the faces i = 0 and j = 0, and
    inside the diffusion and source term, the cell's own east and north
    fluxes, and the fluxes of the west and south neighbours that the
    loops visit. *)
Theorem X1_residual_closed_form
  (a_wind : R -> R -> R -> Z -> Ctx -> R)
  (b_bdry : R -> R -> Ctx -> R)
  (g_source : R -> R -> R -> R -> Ctx -> R)
  (info : DMDALocalInfo) (au : Array3) (usr : Ctx)
  (aF : Array3) (k j i : Z) :
  box_in_grid info ->
  owned info k j i ->
  snd (FormFunctionLocal a_wind b_bdry g_source info au usr aF) k j i
  = residual_value a_wind b_bdry g_source info au usr k j i.
Proof.
  intros Hbox Hown. apply residual_at_owned_cell; assumption.
Qed.

Lemma X1_residual_closed_form_witness :
  snd (FormFunctionLocal wind_east no_bdry no_source grid_4x3x2
         field_ramp_x (sample_user VANLEER) field_ones) 0%Z 1%Z 2%Z
  = residual_value wind_east no_bdry no_source grid_4x3x2 field_ramp_x
      (sample_user VANLEER) 0 1 2.
Proof.
  apply (X1_residual_closed_form wind_east no_bdry no_source grid_4x3x2
           field_ramp_x (sample_user VANLEER) field_ones 0 1 2).
  - unfold box_in_grid. simpl. lia.
  - unfold owned. simpl. lia.
Defined.

(** ** Reads stay inside the grid *)

Section ReadsInGrid.

Variable a_wind : R -> R -> R -> Z -> Ctx -> R.
Variable info : DMDALocalInfo.
Variable au : Array3.
Variable usr : Ctx.

Lemma deep_bounds (j i : Z) :
  deep info j i = true ->
  (1 < i < mx info - 2)%Z /\ (1 < j < my info - 2)%Z.
Proof.
  unfold deep. rewrite !andb_true_iff, !Z.ltb_lt. lia.
Qed.

Lemma nonadvective_reads_in_grid (k j i : Z) (c : Z * Z * Z) :
  (0 <= j < my info)%Z -> (0 <= i < mx info)%Z ->
  In c (nonadvective_reads info k j i) -> in_grid_xy info c.
Proof.
  intros Hj Hi. unfold nonadvective_reads.
  destruct (k >=? zs info)%Z; [| intros []].
  destruct (Z.eqb_spec i (mx info - 1)).
  { intros [<- | []]. simpl. lia. }
  destruct (Z.eqb_spec i 0); cbn [orb].
  { intros [<- | []]. simpl. lia. }
  destruct (Z.eqb_spec j 0); cbn [orb].
  { intros [<- | []]. simpl. lia. }
  destruct (Z.eqb_spec j (my info - 1)).
  { intros [<- | []]. simpl. lia. }
  destruct (i =? mx info - 2)%Z, (i =? 1)%Z, (j =? my info - 2)%Z,
    (j =? 1)%Z; simpl; intros H;
    repeat (destruct H as [<- | H]; [simpl; lia |]); destruct H.
Qed.

Lemma flux_reads_in_grid (k j i q : Z) (c : Z * Z * Z) :
  (0 <= j < my info - 1)%Z -> (0 <= i < mx info - 1)%Z ->
  (0 <= q < 3)%Z ->
  In c (fe_reads (face_flux_eval a_wind info au usr k j i q)) ->
  in_grid_xy info c.
Proof.
  intros Hj Hi Hq.
  unfold face_flux_eval. cbv zeta.
  assert (Hd : ((q = 0 /\ dir_i q = 1 /\ dir_j q = 0 /\ dir_k q = 0)
            \/ (q = 1 /\ dir_i q = 0 /\ dir_j q = 1 /\ dir_k q = 0)
            \/ (q = 2 /\ dir_i q = 0 /\ dir_j q = 0 /\ dir_k q = 1))%Z).
  { assert (q = 0 \/ q = 1 \/ q = 2)%Z as [-> | [-> | ->]] by lia;
      [left | right; left | right; right]; repeat split. }
  destruct Hd as [(Eq & -> & -> & ->) | [(Eq & -> & -> & ->) | (Eq & -> & -> & ->)]];
    destruct (limiter_fcn usr) as [lim |];
    try (destruct (deep info j i) eqn:D;
         [apply deep_bounds in D |]);
    try destruct (Rneqb _ _);
    destruct (Rgeb _ _); simpl; intros H;
    repeat (destruct H as [<- | H]; [simpl; lia |]); destruct H.
Qed.

Lemma cell_reads_in_grid (k j i : Z) (c : Z * Z * Z) :
  (0 <= j < my info)%Z -> (0 <= i < mx info)%Z ->
  In c (cell_reads a_wind info au usr k j i) -> in_grid_xy info c.
Proof.
  intros Hj Hi. unfold cell_reads. rewrite in_app_iff.
  intros [H | H]; [eapply nonadvective_reads_in_grid; eassumption |].
  destruct (Z.eqb_spec i (mx info - 1)); cbn [orb] in H; [destruct H |].
  destruct (Z.eqb_spec j (my info - 1)); [destruct H |].
  simpl in H. rewrite !in_app_iff in H.
  destruct H as [H | [H | [H | []]]];
    try match type of H with
        | In _ (if ?b then _ else _) => destruct b; [destruct H |]
        end.
  - eapply (flux_reads_in_grid k j i 0); try eassumption; lia.
  - eapply (flux_reads_in_grid k j i 1); try eassumption; lia.
  - eapply (flux_reads_in_grid k j i 2); try eassumption; lia.
Qed.

End ReadsInGrid.

(** X3. In x and y, where the grid is not periodic, a pass of the
    residual routine over a cell of an owned box within the grid reads
    the field only at indices of the grid: 0 <= i < mx and
    0 <= j < my. *)
Theorem X3_reads_inside_grid
  (a_wind : R -> R -> R -> Z -> Ctx -> R)
  (info : DMDALocalInfo) (au : Array3) (usr : Ctx)
  (k j i : Z) (c : Z * Z * Z) :
  box_in_grid info ->
  (ys info <= j < ys info + ym info)%Z ->
  (xs info <= i < xs info + xm info)%Z ->
  In c (cell_reads a_wind info au usr k j i) ->
  in_grid_xy info c.
Proof.
  intros [Hx Hy] Hj Hi Hin.
  eapply cell_reads_in_grid; [| | exact Hin]; lia.
Qed.

Lemma X3_reads_inside_grid_witness :
  in_grid_xy grid_6x6x5 (0%Z, 2%Z, 4%Z).
Proof.
  assert (Hne : VANLEER <> NONE) by discriminate.
  apply (X3_reads_inside_grid wind_west grid_6x6x5 field_ramp_x
           (sample_user VANLEER) 0 2 2 (0%Z, 2%Z, 4%Z)).
  - unfold box_in_grid. simpl. lia.
  - simpl. lia.
  - simpl. lia.
  - exact (limiter_reads_two_cells_away VANLEER Hne).
Defined.

(** ** The field values the residual depends on *)

Section Dependence.

Variable a_wind : R -> R -> R -> Z -> Ctx -> R.
Variable b_bdry : R -> R -> Ctx -> R.
Variable g_source : R -> R -> R -> R -> Ctx -> R.
Variable info : DMDALocalInfo.
Variables au au' : Array3.
Variable usr : Ctx.

Lemma face_flux_agree (k j i q : Z) :
  au k j i = au' k j i ->
  au (k + dir_k q)%Z (j + dir_j q)%Z (i + dir_i q)%Z
  = au' (k + dir_k q)%Z (j + dir_j q)%Z (i + dir_i q)%Z ->
  (limiter_fcn usr <> None -> deep info j i = true ->
   au (k - dir_k q)%Z (j - dir_j q)%Z (i - dir_i q)%Z
   = au' (k - dir_k q)%Z (j - dir_j q)%Z (i - dir_i q)%Z
   /\ au (k + 2 * dir_k q)%Z (j + 2 * dir_j q)%Z (i + 2 * dir_i q)%Z
      = au' (k + 2 * dir_k q)%Z (j + 2 * dir_j q)%Z (i + 2 * dir_i q)%Z) ->
  face_flux a_wind info au usr k j i q
  = face_flux a_wind info au' usr k j i q.
Proof.
  intros H0 H1 Hfar.
  unfold face_flux, face_flux_eval, upwind_value, downwind_value.
  cbv zeta. rewrite H0, H1.
  destruct (limiter_fcn usr) as [lim |]; [| reflexivity].
  destruct (deep info j i); [| reflexivity].
  destruct Hfar as [-> ->]; [discriminate | reflexivity |].
  reflexivity.
Qed.

Hypothesis Hbox : box_in_grid info.
Hypothesis Hagree :
  forall k j i,
    in_halo info (stencil_width (limiter_fcn usr)) (k, j, i) ->
    au k j i = au' k j i.

Lemma agree_near (k j i : Z) :
  (zs info - 1 <= k < zs info + zm info + 1)%Z ->
  (ys info - 1 <= j < ys info + ym info + 1)%Z ->
  (xs info - 1 <= i < xs info + xm info + 1)%Z ->
  au k j i = au' k j i.
Proof.
  intros Hk Hj Hi. apply Hagree. unfold in_halo, stencil_width.
  destruct (limiter_fcn usr); lia.
Qed.

Lemma agree_far (k j i : Z) :
  limiter_fcn usr <> None ->
  (zs info - 2 <= k < zs info + zm info + 2)%Z ->
  (ys info - 2 <= j < ys info + ym info + 2)%Z ->
  (xs info - 2 <= i < xs info + xm info + 2)%Z ->
  au k j i = au' k j i.
Proof.
  intros Hlim Hk Hj Hi. apply Hagree. unfold in_halo, stencil_width.
  destruct (limiter_fcn usr); [lia | contradiction].
Qed.

(** The flux through the east or north face of a cell that is owned or
    next to the owned box on its west or south side. *)
Lemma face_flux_agree_near (k j i q : Z) :
  (q = 0 \/ q = 1)%Z ->
  (zs info <= k < zs info + zm info)%Z ->
  (ys info - 1 <= j < ys info + ym info)%Z ->
  (xs info - 1 <= i < xs info + xm info)%Z ->
  (q = 0 -> ys info <= j)%Z ->
  (q = 1 -> xs info <= i)%Z ->
  face_flux a_wind info au usr k j i q
  = face_flux a_wind info au' usr k j i q.
Proof.
  intros Hq Hk Hj Hi Hq0 Hq1.
  destruct Hq as [-> | ->]; apply face_flux_agree; cbn;
    try (apply agree_near; lia);
    intros Hlim _; split; apply agree_far; try assumption; lia.
Qed.

Lemma diffusion_source_agree (k j i : Z) :
  owned info k j i ->
  diffusion_source b_bdry g_source info au usr k j i
  = diffusion_source b_bdry g_source info au' usr k j i.
Proof.
  intros (Hk & Hj & Hi). unfold diffusion_source. cbv zeta.
  rewrite (agree_near k j i), (agree_near k j (i + 1)),
    (agree_near k j (i - 1)), (agree_near k (j + 1) i),
    (agree_near k (j - 1) i), (agree_near (k - 1) j i),
    (agree_near (k + 1) j i) by lia.
  reflexivity.
Qed.

Lemma residual_value_agree (k j i : Z) :
  owned info k j i ->
  residual_value a_wind b_bdry g_source info au usr k j i
  = residual_value a_wind b_bdry g_source info au' usr k j i.
Proof.
  intros Hown. pose proof Hown as (Hk & Hj & Hi).
  unfold residual_value. cbv zeta.
  rewrite (agree_near k j i) by lia.
  rewrite (face_flux_agree_near k j i 0) by lia.
  rewrite (face_flux_agree_near k j i 1) by lia.
  rewrite (diffusion_source_agree k j i Hown).
  destruct (Z.ltb_spec (ys info) j) as [Hys | Hys];
    destruct (Z.ltb_spec (xs info) i) as [Hxs | Hxs];
    rewrite ?(face_flux_agree_near k (j - 1) i 1) by lia;
    rewrite ?(face_flux_agree_near k j (i - 1) 0) by lia;
    reflexivity.
Qed.

End Dependence.

(** X4. The residual at the cells of an owned box within the grid
    depends on the field only through its values within the halo of the
    configured stencil width: two fields that agree there give the same
    residual. *)
Theorem X4_residual_depends_on_halo_only
  (a_wind : R -> R -> R -> Z -> Ctx -> R)
  (b_bdry : R -> R -> Ctx -> R)
  (g_source : R -> R -> R -> R -> Ctx -> R)
  (info : DMDALocalInfo) (au au' : Array3) (usr : Ctx)
  (aF aF' : Array3) (k j i : Z) :
  box_in_grid info ->
  owned info k j i ->
  (forall k j i,
     in_halo info (stencil_width (limiter_fcn usr)) (k, j, i) ->
     au k j i = au' k j i) ->
  snd (FormFunctionLocal a_wind b_bdry g_source info au usr aF) k j i
  = snd (FormFunctionLocal a_wind b_bdry g_source info au' usr aF') k j i.
Proof.
  intros Hbox Hown Hagree.
  rewrite !residual_at_owned_cell by assumption.
  apply residual_value_agree; assumption.
Qed.

Lemma X4_residual_depends_on_halo_only_witness :
  snd (FormFunctionLocal wind_east no_bdry no_source grid_4x3x2_east
         field_ones (sample_user NONE) field_zeros) 0%Z 1%Z 2%Z
  = snd (FormFunctionLocal wind_east no_bdry no_source grid_4x3x2_east
           (fun _ _ i => if (i =? 0)%Z then 5 else 1)
           (sample_user NONE) field_ones) 0%Z 1%Z 2%Z.
Proof.
  apply (X4_residual_depends_on_halo_only wind_east no_bdry no_source
           grid_4x3x2_east field_ones
           (fun _ _ i => if (i =? 0)%Z then 5 else 1)
           (sample_user NONE) field_zeros field_ones 0 1 2).
  - unfold box_in_grid. simpl. lia.
  - unfold owned. simpl. lia.
  - intros k j i H. simpl in H. unfold field_ones.
    destruct (Z.eqb_spec i 0); [lia | reflexivity].
Defined.

(** ** Limited fluxes *)

Section LimitedFlux.

Variable a_wind : R -> R -> R -> Z -> Ctx -> R.
Variable info : DMDALocalInfo.
Variable au : Array3.
Variable usr : Ctx.
Variables k j i q : Z.

(** The flux of lines 206-216 in terms of the upwind, downwind and
    far-upwind values. *)
Lemma face_flux_unfold :
  face_flux a_wind info au usr k j i q
  = let a := face_wind a_wind info usr k j i q in
    let u_up := upwind_value a_wind info au usr k j i q in
    let u_dn := downwind_value a_wind info au usr k j i q in
    let u_far := far_upwind_value a_wind info au usr k j i q in
    match limiter_fcn usr with
    | Some limiter =>
        if deep info j i && Rneqb u_dn u_up
        then a * u_up
             + a * limiter ((u_up - u_far) / (u_dn - u_up)) * (u_dn - u_up)
        else a * u_up
    | None => a * u_up
    end.
Proof.
  unfold face_flux, face_flux_eval, far_upwind_value. cbv zeta.
  destruct (limiter_fcn usr) as [lim |]; [| reflexivity].
  destruct (deep info j i); [| reflexivity]. cbn [andb].
  destruct (Rneqb _ _); reflexivity.
Qed.

End LimitedFlux.

Lemma lit_zero : 0.0 = 0.
Proof. lra. Qed.

(** ** Fields with a flat or a boundary-matching part *)

Section FlatField.

Variable a_wind : R -> R -> R -> Z -> Ctx -> R.
Variable info : DMDALocalInfo.
Variable au : Array3.
Variable usr : Ctx.

(** Where the values on the two sides of a face agree, the flux is the
    wind times that value. *)
Lemma face_flux_flat (k j i q : Z) (c : R) :
  au k j i = c ->
  au (k + dir_k q)%Z (j + dir_j q)%Z (i + dir_i q)%Z = c ->
  face_flux a_wind info au usr k j i q
  = face_wind a_wind info usr k j i q * c.
Proof.
  intros H0 H1. rewrite face_flux_unfold. cbv zeta.
  assert (Hup : upwind_value a_wind info au usr k j i q = c).
  { unfold upwind_value. cbv zeta. destruct (Rgeb _ _); assumption. }
  assert (Hdn : downwind_value a_wind info au usr k j i q = c).
  { unfold downwind_value. cbv zeta. destruct (Rgeb _ _); assumption. }
  rewrite Hup, Hdn, Rneqb_same, andb_false_r.
  destruct (limiter_fcn usr); reflexivity.
Qed.

End FlatField.

(** X22. Boundary injection: for a field that is 0 on the faces i = 0,
    j = 0 and j = my-1 and equals the Dirichlet data on the face
    i = mx-1, the residual is 0 at every owned cell of those four
    faces, for every wind and limiter. *)
Theorem X22_boundary_residual_zero
  (a_wind : R -> R -> R -> Z -> Ctx -> R)
  (b_bdry : R -> R -> Ctx -> R)
  (g_source : R -> R -> R -> R -> Ctx -> R)
  (info : DMDALocalInfo) (au : Array3) (usr : Ctx)
  (aF : Array3) (k j i : Z) :
  box_in_grid info ->
  owned info k j i ->
  (forall k j i, (i = 0 \/ j = 0 \/ j = my info - 1)%Z -> au k j i = 0) ->
  (forall k j,
     au k j (mx info - 1)%Z
     = b_bdry (coord_y info j) (coord_z info k) usr) ->
  (i = 0 \/ i = mx info - 1 \/ j = 0 \/ j = my info - 1)%Z ->
  snd (FormFunctionLocal a_wind b_bdry g_source info au usr aF) k j i = 0.
Proof.
  intros Hbox Hown Hzero Hb Hface.
  rewrite residual_at_owned_cell by assumption.
  unfold residual_value. cbv zeta.
  destruct (Z.eqb_spec i (mx info - 1)) as [Ei | Ei].
  { subst i. rewrite Hb. ring. }
  destruct (Z.eqb_spec j (my info - 1)) as [Ej | Ej].
  { apply Hzero. lia. }
  destruct (Z.eqb_spec i 0) as [Ei0 | Ei0].
  - destruct (Z.eqb_spec j 0) as [Ej0 | Ej0]; [apply Hzero; lia |].
    rewrite (face_flux_flat _ _ _ _ _ _ _ _ 0)
      by (apply Hzero; cbn; lia).
    rewrite Hzero by lia. unfold Rdiv. ring.
  - destruct (Z.eqb_spec j 0) as [Ej0 | Ej0]; [| lia].
    rewrite (face_flux_flat _ _ _ _ _ _ _ _ 0)
      by (apply Hzero; cbn; lia).
    rewrite Hzero by lia. unfold Rdiv. ring.
Qed.

Lemma X22_boundary_residual_zero_witness :
  snd (FormFunctionLocal wind_east no_bdry no_source grid_3x3x2
         (fun _ j i => if ((i =? 1) && (j =? 1))%Z then 7 else 0)
         (sample_user NONE) field_ones) 0%Z 0%Z 1%Z = 0.
Proof.
  apply (X22_boundary_residual_zero wind_east no_bdry no_source grid_3x3x2
           (fun _ j i => if ((i =? 1) && (j =? 1))%Z then 7 else 0)
           (sample_user NONE) field_ones 0 0 1).
  - unfold box_in_grid. simpl. lia.
  - unfold owned. simpl. lia.
  - intros k j i H. simpl in H.
    destruct (Z.eqb_spec i 1); destruct (Z.eqb_spec j 1);
      try reflexivity; lia.
  - intros k j. reflexivity.
  - right. right. left. reflexivity.
Defined.

(** X23. The residual does not depend on the wind through the top
    faces: two winds that agree on their x and y components (q = 0 and
    q = 1) give the same residual at every cell. *)
Theorem X23_residual_ignores_vertical_wind
  (a_wind a_wind' : R -> R -> R -> Z -> Ctx -> R)
  (b_bdry : R -> R -> Ctx -> R)
  (g_source : R -> R -> R -> R -> Ctx -> R)
  (info : DMDALocalInfo) (au : Array3) (usr : Ctx)
  (aF : Array3) (k j i : Z) :
  (forall x y z q, q <> 2%Z -> a_wind x y z q usr = a_wind' x y z q usr) ->
  snd (FormFunctionLocal a_wind b_bdry g_source info au usr aF) k j i
  = snd (FormFunctionLocal a_wind' b_bdry g_source info au usr aF) k j i.
Proof.
  intros Hwind. unfold FormFunctionLocal. cbn [snd].
  rewrite (assemble_top_wind a_wind a_wind' b_bdry g_source info au usr Hwind).
  reflexivity.
Qed.

Lemma X23_residual_ignores_vertical_wind_witness :
  snd (FormFunctionLocal wind_up no_bdry no_source grid_3x3x2
         field_even_planes (sample_user VANLEER) field_zeros) 0%Z 1%Z 1%Z
  = snd (FormFunctionLocal wind_none no_bdry no_source grid_3x3x2
           field_even_planes (sample_user VANLEER) field_zeros) 0%Z 1%Z 1%Z.
Proof.
  apply (X23_residual_ignores_vertical_wind wind_up wind_none no_bdry
           no_source grid_3x3x2 field_even_planes (sample_user VANLEER)
           field_zeros 0 1 1).
  intros x y z q Hq. unfold wind_up, wind_none.
  destruct (Z.eqb_spec q 2); [contradiction | reflexivity].
Defined.

(** ** Decompositions of one grid *)

Section TwoBoxes.

Variable a_wind : R -> R -> R -> Z -> Ctx -> R.
Variable b_bdry : R -> R -> Ctx -> R.
Variable g_source : R -> R -> R -> R -> Ctx -> R.
Variables info info' : DMDALocalInfo.
Variable au : Array3.
Variable usr : Ctx.

Hypothesis same_mx : mx info = mx info'.
Hypothesis same_my : my info = my info'.
Hypothesis same_mz : mz info = mz info'.

Lemma face_flux_same_grid (k j i q : Z) :
  face_flux a_wind info au usr k j i q
  = face_flux a_wind info' au usr k j i q.
Proof.
  unfold face_flux, face_flux_eval, upwind_value, downwind_value, face_wind,
    deep, coord_x, coord_y, coord_z, grid_hx, grid_hy, grid_hz.
  rewrite same_mx, same_my, same_mz. reflexivity.
Qed.

Lemma diffusion_source_same_grid (k j i : Z) :
  diffusion_source b_bdry g_source info au usr k j i
  = diffusion_source b_bdry g_source info' au usr k j i.
Proof.
  unfold diffusion_source, coord_x, coord_y, coord_z, grid_hx, grid_hy,
    grid_hz.
  rewrite same_mx, same_my, same_mz. reflexivity.
Qed.

Lemma residual_value_same_grid (k j i : Z) :
  ((xs info <? i) = (xs info' <? i))%Z ->
  ((ys info <? j) = (ys info' <? j))%Z ->
  residual_value a_wind b_bdry g_source info au usr k j i
  = residual_value a_wind b_bdry g_source info' au usr k j i.
Proof.
  intros Hx Hy. unfold residual_value.
  rewrite !face_flux_same_grid, diffusion_source_same_grid.
  unfold coord_y, coord_z, grid_hx, grid_hy, grid_hz.
  rewrite same_mx, same_my, same_mz, Hx, Hy. reflexivity.
Qed.

End TwoBoxes.

(** X24. Two owned boxes of one grid give an owned cell the same
    residual whenever the cell is the first owned cell of its row in
    both or in neither, and the first of its column in both or in
    neither; in particular, splitting the grid across processes along z
    alone leaves every residual as it is. *)
Theorem X24_residual_same_in_two_boxes
  (a_wind : R -> R -> R -> Z -> Ctx -> R)
  (b_bdry : R -> R -> Ctx -> R)
  (g_source : R -> R -> R -> R -> Ctx -> R)
  (info info' : DMDALocalInfo) (au : Array3) (usr : Ctx)
  (aF aF' : Array3) (k j i : Z) :
  mx info = mx info' -> my info = my info' -> mz info = mz info' ->
  box_in_grid info -> box_in_grid info' ->
  owned info k j i -> owned info' k j i ->
  (xs info < i <-> xs info' < i)%Z ->
  (ys info < j <-> ys info' < j)%Z ->
  snd (FormFunctionLocal a_wind b_bdry g_source info au usr aF) k j i
  = snd (FormFunctionLocal a_wind b_bdry g_source info' au usr aF') k j i.
Proof.
  intros Hmx Hmy Hmz Hbox Hbox' Hown Hown' Hx Hy.
  rewrite !residual_at_owned_cell by assumption.
  apply residual_value_same_grid; try assumption.
  - destruct (Z.ltb_spec (xs info) i), (Z.ltb_spec (xs info') i);
      try reflexivity; lia.
  - destruct (Z.ltb_spec (ys info) j), (Z.ltb_spec (ys info') j);
      try reflexivity; lia.
Qed.

Lemma X24_residual_same_in_two_boxes_witness :
  snd (FormFunctionLocal wind_east no_bdry no_source grid_4x3x2
         field_ramp_x (sample_user NONE) field_zeros) 1%Z 1%Z 2%Z
  = snd (FormFunctionLocal wind_east no_bdry no_source grid_4x3x2_upper
           field_ramp_x (sample_user NONE) field_ones) 1%Z 1%Z 2%Z.
Proof.
  apply (X24_residual_same_in_two_boxes wind_east no_bdry no_source
           grid_4x3x2 grid_4x3x2_upper field_ramp_x (sample_user NONE)
           field_zeros field_ones 1 1 2); try reflexivity.
  - unfold box_in_grid. simpl. lia.
  - unfold box_in_grid. simpl. lia.
  - unfold owned. simpl. lia.
  - unfold owned. simpl. lia.
Defined.

(** ** The layer problem *)

Lemma layer_C_range (eps : R) : 0 < eps -> 0 < exp (- 2.0 / eps) < 1.
Proof.
  intros He. split; [apply exp_pos |].
  apply Rlt_le_trans with (exp 0); [| rewrite exp_0; lra].
  apply exp_increasing.
  assert (H : 0 < / eps) by (apply Rinv_0_lt_compat, He).
  unfold Rdiv. nra.
Qed.

Lemma layer_u_west_face (y z eps : R) : layer_u (-1) y z eps = 0.
Proof.
  unfold layer_u. cbv zeta.
  replace ((-1 - 1) / eps) with (- 2.0 / eps) by (unfold Rdiv; lra).
  unfold Rdiv. ring.
Qed.

Lemma layer_u_east_face_b (y z eps : R) :
  0 < eps -> layer_u 1 y z eps = layer_b y z.
Proof.
  intros He. pose proof (layer_C_range eps He) as HC.
  unfold layer_u, layer_b. cbv zeta.
  replace ((1 - 1) / eps) with 0 by (unfold Rdiv; lra).
  rewrite exp_0, lit_one. field. lra.
Qed.

Lemma layer_u_south_face (x z eps : R) : layer_u x (-1) z eps = 0.
Proof.
  unfold layer_u. cbv zeta.
  replace (EE * (-1 + 1.0)) with 0 by lra.
  rewrite sin_0. ring.
Qed.

Lemma layer_u_bottom_plane (x y eps : R) : layer_u x y (-1) eps = 0.
Proof.
  unfold layer_u. cbv zeta.
  replace (FF * (-1 + 1.0)) with 0 by lra.
  rewrite sin_0. ring.
Qed.

(** X12. On the domain [-1,1]^3, for eps > 0 with exp(-2/eps) below 1
    (every eps > 0 in exact arithmetic), the exact solution of the
    layer problem meets the Dirichlet data of the faces x = -1, x = 1
    and y = -1, and vanishes on the plane z = -1: it is 0 at x = -1,
    [layer_b] at x = 1, 0 at y = -1 and 0 at z = -1. *)
Theorem X12_layer_u_dirichlet_data (x y z eps : R) :
  0 < eps -> exp (- 2.0 / eps) < 1 ->
  -1 <= x <= 1 -> -1 <= y <= 1 -> -1 <= z <= 1 ->
  layer_u (-1) y z eps = 0
  /\ layer_u 1 y z eps = layer_b y z
  /\ layer_u x (-1) z eps = 0
  /\ layer_u x y (-1) eps = 0.
Proof.
  intros He _ _ _ _.
  repeat split.
  - apply layer_u_west_face.
  - apply layer_u_east_face_b, He.
  - apply layer_u_south_face.
  - apply layer_u_bottom_plane.
Qed.

Lemma X12_layer_u_dirichlet_data_witness :
  layer_u 1 0 0 1 = layer_b 0 0.
Proof.
  apply (X12_layer_u_dirichlet_data 0 0 0 1); try lra.
  apply (layer_C_range 1). lra.
Defined.

Lemma exp_monotone (x y : R) : x <= y -> exp x <= exp y.
Proof.
  intros [H | ->]; [left; apply exp_increasing, H | right; reflexivity].
Qed.

Lemma layer_U_range (x eps : R) :
  0 < eps -> -1 <= x <= 1 ->
  0 <= (exp ((x - 1) / eps) - exp (- 2.0 / eps)) / (1.0 - exp (- 2.0 / eps))
    <= 1.
Proof.
  intros He Hx. pose proof (layer_C_range eps He) as HC.
  assert (Hinv : 0 < / eps) by (apply Rinv_0_lt_compat, He).
  assert (Hlo : exp (- 2.0 / eps) <= exp ((x - 1) / eps)).
  { apply exp_monotone. unfold Rdiv. nra. }
  assert (Hhi : exp ((x - 1) / eps) <= 1).
  { apply Rle_trans with (exp 0); [| rewrite exp_0; lra].
    apply exp_monotone. unfold Rdiv. nra. }
  assert (Hden : 0 < 1.0 - exp (- 2.0 / eps)) by lra.
  split.
  - apply Rmult_le_pos; [lra |]. apply Rlt_le, Rinv_0_lt_compat, Hden.
  - apply (Rmult_le_reg_r (1.0 - exp (- 2.0 / eps))); [exact Hden |].
    unfold Rdiv. rewrite Rmult_assoc, Rinv_l by lra. lra.
Qed.

(** X14. On the domain [-1,1]^3, for eps > 0 with exp(-2/eps) below 1
    (every eps > 0 in exact arithmetic), the exact solution of the
    layer problem is bounded by 1 in absolute value. *)
Theorem X14_layer_u_bounded (x y z eps : R) :
  0 < eps -> exp (- 2.0 / eps) < 1 ->
  -1 <= x <= 1 -> -1 <= y <= 1 -> -1 <= z <= 1 ->
  Rabs (layer_u x y z eps) <= 1.
Proof.
  intros He _ Hx _ _. unfold layer_u. cbv zeta.
  pose proof (layer_U_range x eps He Hx) as HU.
  set (U := (exp ((x - 1) / eps) - exp (- 2.0 / eps))
            / (1.0 - exp (- 2.0 / eps))) in *.
  pose proof (SIN_bound (EE * (y + 1.0))) as Hs1.
  pose proof (SIN_bound (FF * (z + 1.0))) as Hs2.
  set (s1 := sin (EE * (y + 1.0))) in *.
  set (s2 := sin (FF * (z + 1.0))) in *.
  rewrite !Rabs_mult.
  assert (HaU : Rabs U <= 1) by (apply Rabs_le; lra).
  assert (Ha1 : Rabs s1 <= 1) by (apply Rabs_le; lra).
  assert (Ha2 : Rabs s2 <= 1) by (apply Rabs_le; lra).
  pose proof (Rabs_pos U). pose proof (Rabs_pos s1). pose proof (Rabs_pos s2).
  assert (H12 : Rabs U * Rabs s1 <= 1) by nra.
  assert (H012 : 0 <= Rabs U * Rabs s1) by nra.
  nra.
Qed.

Lemma X14_layer_u_bounded_witness : Rabs (layer_u 0 0 0 1) <= 1.
Proof.
  apply (X14_layer_u_bounded 0 0 0 1); try lra.
  apply (layer_C_range 1). lra.
Defined.

Lemma derivable_pt_lim_ext (f g : R -> R) (x l l' : R) :
  (forall t, f t = g t) -> l = l' ->
  derivable_pt_lim g x l' -> derivable_pt_lim f x l.
Proof.
  intros Hfg -> Hg e He. destruct (Hg e He) as [d Hd].
  exists d. intros h Hh Hhd. rewrite !Hfg. apply Hd; assumption.
Qed.

Lemma derivable_affine (w c x : R) :
  derivable_pt_lim (fun t => w * (t + c)) x w.
Proof.
  apply (derivable_pt_lim_ext _ (mult_real_fct w (id + fct_cte c)%F) _ _
           (w * (1 + 0))); [reflexivity | ring |].
  apply derivable_pt_lim_scal.
  apply derivable_pt_lim_plus;
    [apply derivable_pt_lim_id | apply derivable_pt_lim_const].
Qed.

Lemma derivable_sin_affine (w c x : R) :
  derivable_pt_lim (fun t => sin (w * (t + c))) x (w * cos (w * (x + c))).
Proof.
  apply (derivable_pt_lim_ext _ (comp sin (fun t => w * (t + c))) _ _
           (cos (w * (x + c)) * w)); [reflexivity | ring |].
  apply derivable_pt_lim_comp;
    [apply derivable_affine | apply derivable_pt_lim_sin].
Qed.

Lemma derivable_cos_affine (w c x : R) :
  derivable_pt_lim (fun t => cos (w * (t + c))) x
    (- w * sin (w * (x + c))).
Proof.
  apply (derivable_pt_lim_ext _ (comp cos (fun t => w * (t + c))) _ _
           (- sin (w * (x + c)) * w)); [reflexivity | ring |].
  apply derivable_pt_lim_comp;
    [apply derivable_affine | apply derivable_pt_lim_cos].
Qed.

Lemma derivable_exp_affine (w c x : R) :
  derivable_pt_lim (fun t => exp (w * (t + c))) x (w * exp (w * (x + c))).
Proof.
  apply (derivable_pt_lim_ext _ (comp exp (fun t => w * (t + c))) _ _
           (exp (w * (x + c)) * w)); [reflexivity | ring |].
  apply derivable_pt_lim_comp;
    [apply derivable_affine | apply derivable_pt_lim_exp].
Qed.

Lemma derivable_scaled_shifted (f : R -> R) (A B x l : R) :
  derivable_pt_lim f x l ->
  derivable_pt_lim (fun t => A * f t + B) x (A * l).
Proof.
  intros Hf.
  apply (derivable_pt_lim_ext _ (mult_real_fct A f + fct_cte B)%F _ _
           (A * l + 0)); [reflexivity | ring |].
  apply derivable_pt_lim_plus;
    [apply derivable_pt_lim_scal, Hf | apply derivable_pt_lim_const].
Qed.

(** A sine wave [K sin(w (t + c))]: its derivatives. *)
Lemma sine_wave_derivatives (K w c x : R) :
  has_derivatives (fun t => K * sin (w * (t + c)) + 0) x
    (K * (w * cos (w * (x + c))))
    (- (w * w) * (K * sin (w * (x + c)))).
Proof.
  exists (fun t => K * (w * cos (w * (t + c)))). repeat split.
  - intros t. apply derivable_scaled_shifted, derivable_sin_affine.
  - apply (derivable_pt_lim_ext _
             (fun t => (K * w) * cos (w * (t + c)) + 0) _ _
             ((K * w) * (- w * sin (w * (x + c)))));
      [intros t; ring | ring |].
    apply derivable_scaled_shifted, derivable_cos_affine.
Qed.

(** An exponential [A exp(w (t + c)) + B]: its derivatives. *)
Lemma exponential_derivatives (A B w c x : R) :
  has_derivatives (fun t => A * exp (w * (t + c)) + B) x
    (A * (w * exp (w * (x + c))))
    (A * (w * (w * exp (w * (x + c))))).
Proof.
  exists (fun t => A * (w * exp (w * (t + c)))). repeat split.
  - intros t. apply derivable_scaled_shifted, derivable_exp_affine.
  - apply (derivable_pt_lim_ext _
             (fun t => (A * w) * exp (w * (t + c)) + 0) _ _
             ((A * w) * (w * exp (w * (x + c)))));
      [intros t; ring | ring |].
    apply derivable_scaled_shifted, derivable_exp_affine.
Qed.

Lemma has_derivatives_ext (f g : R -> R) (x d1 d2 : R) :
  (forall t, f t = g t) ->
  has_derivatives g x d1 d2 -> has_derivatives f x d1 d2.
Proof.
  intros Hfg (g' & Hg & H1 & H2). exists g'. repeat split; try assumption.
  intros t. apply (derivable_pt_lim_ext f g t _ (g' t)); auto.
Qed.

(** X15. For eps <> 0 the exact solution of the layer problem solves
    the equation with the layer problem's wind and source:
    - eps (u_xx + u_yy + u_zz) + a . grad u = g, where a is [layer_a]
    and g is [layer_g]. *)
Theorem X15_layer_u_solves_equation (x y z eps : R) :
  eps <> 0 ->
  exists ux uxx uy uyy uz uzz : R,
    has_derivatives (fun t => layer_u t y z eps) x ux uxx
    /\ has_derivatives (fun t => layer_u x t z eps) y uy uyy
    /\ has_derivatives (fun t => layer_u x y t eps) z uz uzz
    /\ - eps * (uxx + uyy + uzz)
       + (layer_a x y z 0 * ux + layer_a x y z 1 * uy + layer_a x y z 2 * uz)
       = layer_g x y z eps.
Proof.
  intros Heps.
  set (C := exp (- 2.0 / eps)).
  set (S := sin (EE * (y + 1.0))).
  set (T := sin (FF * (z + 1.0))).
  set (U := (exp ((x - 1) / eps) - C) / (1.0 - C)).
  set (A := / (1.0 - C) * S * T).
  set (B := - C * / (1.0 - C) * S * T).
  set (E := exp (/ eps * (x + -1))).
  exists (A * (/ eps * E)), (A * (/ eps * (/ eps * E))).
  exists ((U * T) * (EE * cos (EE * (y + 1.0)))),
    (- (EE * EE) * ((U * T) * S)).
  exists ((U * S) * (FF * cos (FF * (z + 1.0)))),
    (- (FF * FF) * ((U * S) * T)).
  split; [| split; [| split]].
  - apply (has_derivatives_ext _
             (fun t => A * exp (/ eps * (t + -1)) + B)).
    + intros t. unfold layer_u. cbv zeta. fold C S T.
      replace ((t - 1) / eps) with (/ eps * (t + -1))
        by (unfold Rdiv; ring).
      unfold A, B, Rdiv. ring.
    + apply exponential_derivatives.
  - apply (has_derivatives_ext _
             (fun t => (U * T) * sin (EE * (t + 1.0)) + 0)).
    + intros t. unfold layer_u. cbv zeta. fold C T U. ring.
    + apply sine_wave_derivatives.
  - apply (has_derivatives_ext _
             (fun t => (U * S) * sin (FF * (t + 1.0)) + 0)).
    + intros t. unfold layer_u. cbv zeta. fold C S U. ring.
    + apply sine_wave_derivatives.
  - unfold layer_g, layer_u, layer_a. cbv zeta. fold C S T U.
    simpl. rewrite lit_one, lit_zero. field. exact Heps.
Qed.

Lemma X15_layer_u_solves_equation_witness :
  exists ux uxx uy uyy uz uzz : R,
    has_derivatives (fun t => layer_u t 0 0 1) 0 ux uxx
    /\ has_derivatives (fun t => layer_u 0 t 0 1) 0 uy uyy
    /\ has_derivatives (fun t => layer_u 0 0 t 1) 0 uz uzz
    /\ - 1 * (uxx + uyy + uzz)
       + (layer_a 0 0 0 0 * ux + layer_a 0 0 0 1 * uy + layer_a 0 0 0 2 * uz)
       = layer_g 0 0 0 1.
Proof.
  apply (X15_layer_u_solves_equation 0 0 0 1). lra.
Defined.

(** ** FormLayerUExact, cell by cell *)

Section ExactCells.

Variable info : DMDALocalInfo.
Variable usr : AdCtx.

Lemma fill_plane_other (hx hy z : R) (k' k j i : Z) :
  k <> k' -> keeps k j i (fill_layer_plane info usr hx hy z k').
Proof.
  intros Hk. unfold fill_layer_plane.
  apply loop_keeps. intros j' _.
  apply loop_keeps. intros i' _ a. cbv zeta.
  apply aset_off. lia.
Qed.

Lemma fill_plane_unowned (hx hy z : R) (k' k j i : Z) :
  ~ ((ys info <= j < ys info + ym info)%Z
     /\ (xs info <= i < xs info + xm info)%Z) ->
  keeps k j i (fill_layer_plane info usr hx hy z k').
Proof.
  intros Hout. unfold fill_layer_plane.
  apply loop_keeps. intros j' Hj'.
  apply loop_keeps. intros i' Hi' a. cbv zeta.
  apply aset_off. lia.
Qed.

Lemma fill_plane_owned (hx hy z : R) (k j i : Z) (auex : Array3) :
  (ys info <= j < ys info + ym info)%Z ->
  (xs info <= i < xs info + xm info)%Z ->
  fill_layer_plane info usr hx hy z k auex k j i
  = layer_u (-1.0 + IZR i * hx) (-1.0 + (IZR j + 0.5) * hy) z (eps usr).
Proof.
  intros Hj Hi. unfold fill_layer_plane.
  rewrite (for_loop_around (ys info) (ys info + ym info) j) by exact Hj.
  rewrite loop_keeps.
  2:{ intros j' Hj'. apply loop_keeps. intros i' _ a. cbv zeta.
      apply aset_off. lia. }
  cbv zeta.
  rewrite (for_loop_around (xs info) (xs info + xm info) i) by exact Hi.
  rewrite loop_keeps.
  2:{ intros i' Hi' a. apply aset_off. lia. }
  apply aset_same.
Qed.

Lemma planes_local_j (hx hy hz : R) (lo hi j0 : Z) (auex : Array3) :
  snd (for_loop lo hi (layer_plane_body info usr hx hy hz) (auex, j0))
  = if (lo <? hi)%Z then Z.max (ys info) (ys info + ym info) else j0.
Proof.
  destruct (Z.ltb_spec lo hi) as [Hlt | Hge].
  - rewrite for_loop_last by exact Hlt.
    destruct (for_loop lo (hi - 1) (layer_plane_body info usr hx hy hz) (auex, j0)).
    reflexivity.
  - rewrite for_loop_none by exact Hge. reflexivity.
Qed.

Lemma planes_keep (hx hy hz : R) (lo hi k j i : Z) (st : Array3 * Z) :
  (forall k', (lo <= k' < hi)%Z ->
     k <> k'
     \/ ~ ((ys info <= j < ys info + ym info)%Z
           /\ (xs info <= i < xs info + xm info)%Z)) ->
  fst (for_loop lo hi (layer_plane_body info usr hx hy hz) st) k j i = fst st k j i.
Proof.
  intros H.
  apply (for_loop_inv (fun s : Array3 * Z => fst s k j i = fst st k j i));
    [reflexivity |].
  intros k' [a jj] Hk' Hs. cbn [layer_plane_body fst] in *.
  destruct (H k' Hk') as [Hne | Hout].
  - rewrite fill_plane_other by exact Hne. exact Hs.
  - rewrite fill_plane_unowned by exact Hout. exact Hs.
Qed.

Lemma FormLayerUExact_loop (j0 : Z) (auex : Array3) :
  FormLayerUExact info usr j0 auex
  = fst (for_loop (zs info) (zs info + zm info)
           (layer_plane_body info usr (2.0 / IZR (mx info - 1)) (2.0 / IZR (mz info - 1))
              (2.0 / IZR (my info)))
           (auex, j0)).
Proof. reflexivity. Qed.

Lemma FormLayerUExact_owned (j0 : Z) (auex : Array3) (k j i : Z) :
  owned info k j i ->
  FormLayerUExact info usr j0 auex k j i = exact_value_stored info usr j0 k j i.
Proof.
  intros (Hk & Hj & Hi). rewrite FormLayerUExact_loop.
  rewrite (for_loop_around (zs info) (zs info + zm info) k) by exact Hk.
  rewrite planes_keep by (intros k' Hk'; left; lia).
  pose proof (planes_local_j (2.0 / IZR (mx info - 1))
                (2.0 / IZR (mz info - 1)) (2.0 / IZR (my info))
                (zs info) k j0 auex) as HJ.
  destruct (for_loop (zs info) k _ (auex, j0)) as [A J].
  cbn [snd] in HJ. cbn [layer_plane_body fst].
  rewrite fill_plane_owned by assumption.
  unfold exact_value_stored. cbv zeta. subst J.
  destruct (Z.ltb_spec (zs info) k) as [Hlt | Hge];
    destruct (Z.eqb_spec k (zs info)) as [E | E]; try lia.
  - rewrite Z.max_r by lia. reflexivity.
  - reflexivity.
Qed.

Lemma FormLayerUExact_unowned (j0 : Z) (auex : Array3) (k j i : Z) :
  ~ owned info k j i ->
  FormLayerUExact info usr j0 auex k j i = auex k j i.
Proof.
  intros Hout. rewrite FormLayerUExact_loop.
  rewrite planes_keep; [reflexivity |].
  intros k' Hk'. unfold owned in Hout. lia.
Qed.

End ExactCells.

(** X16. At every owned cell, [FormLayerUExact] stores the exact
    solution evaluated at x = -1 + i * 2/(mx-1), y = -1 + (j + 0.5) *
    2/(mz-1) and z = -1 + J * 2/my, where J is the value the local [j]
    had at entry for the first owned plane and ys + ym for every other
    plane; the cell's own k does not enter its z coordinate. *)
Theorem X16_exact_solution_stored_value
  (info : DMDALocalInfo) (usr : AdCtx) (j0 : Z) (auex : Array3)
  (k j i : Z) :
  owned info k j i ->
  FormLayerUExact info usr j0 auex k j i
  = exact_value_stored info usr j0 k j i.
Proof.
  intros Hown. apply FormLayerUExact_owned, Hown.
Qed.

Lemma X16_exact_solution_stored_value_witness :
  FormLayerUExact grid_6x6x5 (sample_user NONE) 0 field_zeros 1%Z 2%Z 3%Z
  = exact_value_stored grid_6x6x5 (sample_user NONE) 0 1 2 3.
Proof.
  apply (X16_exact_solution_stored_value grid_6x6x5 (sample_user NONE) 0
           field_zeros 1 2 3).
  unfold owned. simpl. lia.
Defined.

(** X17. [FormLayerUExact] stores only into entries of the owned box:
    every other entry of the array holds after the call what it held
    before. *)
Theorem X17_exact_solution_unowned_untouched
  (info : DMDALocalInfo) (usr : AdCtx) (j0 : Z) (auex : Array3)
  (k j i : Z) :
  ~ owned info k j i ->
  FormLayerUExact info usr j0 auex k j i = auex k j i.
Proof.
  intros Hout. apply FormLayerUExact_unowned, Hout.
Qed.

Lemma X17_exact_solution_unowned_untouched_witness :
  FormLayerUExact grid_4x3x2_east (sample_user NONE) 0 field_ones 0%Z 1%Z 1%Z
  = field_ones 0%Z 1%Z 1%Z.
Proof.
  apply (X17_exact_solution_unowned_untouched grid_4x3x2_east
           (sample_user NONE) 0 field_ones 0 1 1).
  unfold owned. simpl. lia.
Defined.

(** ** Error codes of a run *)

Section ErrorCodes.

Variable ext : Event -> PetscErrorCode.
Variable bad_eps : Prop.

Lemma stops_ret {A : Type} (a : A) : stops_at_failure ext bad_eps (ret a).
Proof. intros code H. discriminate. Qed.

Lemma stops_call (ev : Event) : stops_at_failure ext bad_eps (call ext ev).
Proof.
  intros code. unfold call. cbn [snd fst].
  destruct (Z.eqb_spec (ext ev) 0) as [E | E]; [discriminate |].
  intros [= <-]. split; [exact E |].
  right. exists [], ev. split; reflexivity.
Qed.

Lemma stops_call_unchecked (ev : Event) :
  stops_at_failure ext bad_eps (call_unchecked ev).
Proof. intros code H. discriminate. Qed.

Lemma stops_bind {A B : Type} (m : Run A) (f : A -> Run B) :
  stops_at_failure ext bad_eps m ->
  (forall a, stops_at_failure ext bad_eps (f a)) ->
  stops_at_failure ext bad_eps (bind m f).
Proof.
  intros Hm Hf code. unfold bind.
  destruct m as [t [e | a]].
  - cbn [snd fst]. intros [= <-].
    exact (Hm e eq_refl).
  - specialize (Hf a). destruct (f a) as [t' r]. cbn [snd fst].
    intros Hr. destruct (Hf code Hr) as [Hne [Heps | (t0 & ev & Ht & Hev)]].
    + split; [exact Hne | left; exact Heps].
    + split; [exact Hne |]. right. exists (t ++ t0), ev.
      cbn [fst] in Ht. rewrite Ht, app_assoc. split; [reflexivity | exact Hev].
Qed.

End ErrorCodes.

(** X19. When [main] returns an error code, the code is not 0 and it
    is either the 1 of the check on eps, with eps <= 0, or the code
    returned by the last library call of the trace: [main] makes no
    further call after a checked call has failed. *)
Theorem X19_main_stops_at_first_failure
  (ext : Event -> PetscErrorCode) (opts : Options) (user0 : Ctx)
  (code : PetscErrorCode) :
  snd (main ext opts user0) = inl code ->
  code <> 0%Z
  /\ ((code = 1%Z /\ configured_eps opts <= 0)
      \/ exists t ev,
           fst (main ext opts user0) = t ++ [ev] /\ ext ev = code).
Proof.
  revert code.
  change (stops_at_failure ext (configured_eps opts <= 0)
            (main ext opts user0)).
  unfold main. cbv zeta.
  repeat (apply stops_bind;
          [ first [ apply stops_call | apply stops_call_unchecked ]
          | intros _ ]);
    try apply stops_call.
  apply stops_bind; [| intros _].
  - unfold configured_eps.
    destruct (Rle_dec (match opt_eps opts with Some e => e | None => 1.0 end)
                0.0) as [Hle | Hgt].
    + rewrite Rleb_true by exact Hle.
      intros code. unfold SETERRQ. cbn [snd fst]. intros [= <-].
      split; [discriminate |]. left. split; [reflexivity | lra].
    + rewrite Rleb_false by lra. apply stops_ret.
  - repeat (apply stops_bind;
            [ first [ apply stops_call | apply stops_call_unchecked ]
            | intros _ ]).
    apply stops_call.
Qed.

Lemma X19_main_stops_at_first_failure_witness :
  77%Z <> 0%Z
  /\ ((77%Z = 1%Z /\ configured_eps {| opt_eps := None; opt_limiter := None |} <= 0)
      \/ exists t ev,
           fst (main fail_at_solve {| opt_eps := None; opt_limiter := None |}
                  (sample_user NONE)) = t ++ [ev]
           /\ fail_at_solve ev = 77%Z).
Proof.
  apply (X19_main_stops_at_first_failure fail_at_solve
           {| opt_eps := None; opt_limiter := None |} (sample_user NONE)
           77%Z).
  unfold main, call. cbv zeta. cbn [opt_eps opt_limiter].
  rewrite Rleb_false by lra. reflexivity.
Defined.

(** X20. When [main] returns 0, the test eps <= 0 of line 264 failed,
    every library call of its trace other than the three whose code is
    dropped ([PetscInitialize], the [VecDestroy] of [u_exact] and
    [SNESDestroy]) returned 0, the solve was made, and the trace ends
    with [PetscFinalize]. *)
Theorem X20_main_success
  (ext : Event -> PetscErrorCode) (opts : Options) (user0 : Ctx) :
  snd (main ext opts user0) = inr tt ->
  ~ configured_eps opts <= 0
  /\ In SNESSolve (fst (main ext opts user0))
  /\ last (fst (main ext opts user0)) PetscInitialize = PetscFinalize
  /\ (forall ev, In ev (fst (main ext opts user0)) ->
        ev = PetscInitialize \/ ev = VecDestroy u_exact
        \/ ev = SNESDestroy \/ ext ev = 0%Z).
Proof.
  unfold main, call, call_unchecked, configured_eps. cbv zeta.
  set (e := match opt_eps opts with Some e => e | None => 1.0 end).
  set (w := stencil_width _). set (mz := match limiter_fcn _ with
                                         | Some _ => _ | None => _ end).
  destruct (Rle_dec e 0.0) as [Hle | Hgt].
  { rewrite Rleb_true by exact Hle.
    destruct (ext PetscOptionsBegin =? 0)%Z;
      [destruct (ext PetscOptionsReal =? 0)%Z |];
      cbn; intros H; discriminate. }
  rewrite Rleb_false by lra.
  repeat match goal with
         | |- context [(ext ?ev =? 0)%Z] =>
             destruct (Z.eqb_spec (ext ev) 0);
             [| cbn; intros H; discriminate]
         end.
  cbn. intros _. split; [lra |].
  split; [repeat (first [left; reflexivity | right]) |].
  split; [reflexivity |].
  intros ev H.
  repeat (destruct H as [<- | H]; [auto |]). destruct H.
Qed.

Lemma X20_main_success_witness :
  ~ configured_eps {| opt_eps := None; opt_limiter := Some NONE |} <= 0
  /\ In SNESSolve
       (fst (main all_succeed {| opt_eps := None; opt_limiter := Some NONE |}
               (sample_user NONE)))
  /\ last (fst (main all_succeed
                  {| opt_eps := None; opt_limiter := Some NONE |}
                  (sample_user NONE))) PetscInitialize = PetscFinalize
  /\ (forall ev,
        In ev (fst (main all_succeed
                      {| opt_eps := None; opt_limiter := Some NONE |}
                      (sample_user NONE))) ->
        ev = PetscInitialize \/ ev = VecDestroy u_exact
        \/ ev = SNESDestroy \/ all_succeed ev = 0%Z).
Proof.
  apply (X20_main_success all_succeed
           {| opt_eps := None; opt_limiter := Some NONE |} (sample_user NONE)).
  unfold main, call. cbv zeta. cbn [opt_eps opt_limiter].
  rewrite Rleb_false by lra. reflexivity.
Defined.
